(** * A shallow embedding of the chess plugin (server/chat-plugins/chess.ts)

    The development follows the last revision of the plugin contained in
    the source file: the [ChessBoard] class working on two [bigint] bit
    fields and the [ChessGame] room game driving it.  JavaScript numbers
    are modelled by [num] (an integer or [NaN]), [bigint]s by [Z], strings
    by [string] (ASCII code units), thrown exceptions and unbounded
    recursion by the result type [res]. *)

From Stdlib Require Import ZArith List String Ascii Bool Lia DecimalString.
Import ListNotations.

Local Open Scope string_scope.
Local Open Scope list_scope.
Local Open Scope Z_scope.

(** ** JavaScript numbers, as far as the plugin uses them *)

Inductive num : Type :=
| Int (z : Z)
| NaN.

Definition nadd (a b : num) : num :=
  match a, b with Int x, Int y => Int (x + y) | _, _ => NaN end.

Definition nsub (a b : num) : num :=
  match a, b with Int x, Int y => Int (x - y) | _, _ => NaN end.

Definition nmul (a b : num) : num :=
  match a, b with Int x, Int y => Int (x * y) | _, _ => NaN end.

(** [Math.abs] *)
Definition nabs (a : num) : num :=
  match a with Int x => Int (Z.abs x) | NaN => NaN end.

(** [a === b] on numbers: [NaN] is equal to nothing. *)
Definition nseq (a b : num) : bool :=
  match a, b with Int x, Int y => x =? y | _, _ => false end.

(** [a < b] and [a >= b]: every comparison with [NaN] is false. *)
Definition nlt (a b : num) : bool :=
  match a, b with Int x, Int y => x <? y | _, _ => false end.

Definition nge (a b : num) : bool :=
  match a, b with Int x, Int y => x >=? y | _, _ => false end.

(** [Number.isNaN] *)
Definition isNaN (a : num) : bool :=
  match a with NaN => true | Int _ => false end.

(** The text a template literal substitutes for a number. *)
Definition num_to_string (a : num) : string :=
  match a with
  | Int z => NilZero.string_of_int (Z.to_int z)
  | NaN => "NaN"
  end.

(** [parseInt] of one character of a string ([undefined] when the string
    is too short): a decimal digit or [NaN]. *)
Definition parseInt (c : option ascii) : num :=
  match c with
  | Some "0"%char => Int 0 | Some "1"%char => Int 1 | Some "2"%char => Int 2
  | Some "3"%char => Int 3 | Some "4"%char => Int 4 | Some "5"%char => Int 5
  | Some "6"%char => Int 6 | Some "7"%char => Int 7 | Some "8"%char => Int 8
  | Some "9"%char => Int 9
  | _ => NaN
  end.

(** [s.indexOf(c)] for a one-character (or undefined) needle. *)
Fixpoint indexOf_from (s : string) (c : ascii) (i : Z) : Z :=
  match s with
  | EmptyString => -1
  | String d s' => if Ascii.eqb d c then i else indexOf_from s' c (i + 1)
  end.

Definition indexOf (s : string) (c : option ascii) : Z :=
  match c with
  | Some c => indexOf_from s c 0
  | None => -1
  end.

(** [s[i]] for a number [i]: [undefined] outside the string. *)
Definition char_at (s : string) (i : num) : option ascii :=
  match i with
  | Int z => if z <? 0 then None else String.get (Z.to_nat z) s
  | NaN => None
  end.

(** A character (or [undefined]) inside a template literal. *)
Definition char_to_string (c : option ascii) : string :=
  match c with
  | Some c => String c EmptyString
  | None => "undefined"
  end.

(** [Array.prototype.includes] on an array of strings. *)
Definition includes (l : list string) (s : string) : bool :=
  existsb (String.eqb s) l.

(** ** Colors, coordinates and positions *)

Inductive Color : Type := white | black.

Definition Color_eqb (a b : Color) : bool :=
  match a, b with
  | white, white | black, black => true
  | _, _ => false
  end.

Definition Color_to_string (c : Color) : string :=
  match c with white => "white" | black => "black" end.

Record Coord : Type := mkCoord { row : num; col : num }.

Definition letters : string := "abcdefgh".

Definition positionToCoordinates (position : string) : Coord :=
  let letter := String.get 0 position in
  let number := parseInt (String.get 1 position) in
  let col := Int (indexOf letters letter) in
  let row := nsub number (Int 1) in
  {| row := row; col := col |}.

Definition coordinatesToPosition (coord : Coord) : string :=
  let letter := char_at letters (col coord) in
  let number := nadd (row coord) (Int 1) in
  String.append (char_to_string letter) (num_to_string number).

Definition coordinatesToIndex (coord : Coord) : num :=
  nadd (nmul (row coord) (Int 8)) (col coord).

(** The strings of the type [Position]: a file letter and a rank digit. *)
Definition files : list ascii :=
  ["a"; "b"; "c"; "d"; "e"; "f"; "g"; "h"]%char.

Definition ranks : list ascii :=
  ["1"; "2"; "3"; "4"; "5"; "6"; "7"; "8"]%char.

Definition valid_position (s : string) : Prop :=
  exists f r, In f files /\ In r ranks /\ s = String f (String r EmptyString).

(** ** Results of calls: a value, a thrown exception, or no answer

    [OutOfFuel] stands for a recursion that did not come back within the
    given recursion depth; a call that is [OutOfFuel] for every depth
    never returns (JavaScript ends it with a stack overflow). *)

Inductive Exn : Type :=
| TypeError
| RangeError
| ErrorMessage (msg : string).

Inductive res (A : Type) : Type :=
| Ret (a : A)
| Throw (e : Exn)
| OutOfFuel.

Arguments Ret {A} a.
Arguments Throw {A} e.
Arguments OutOfFuel {A}.

Definition bind {A B : Type} (m : res A) (k : A -> res B) : res B :=
  match m with
  | Ret a => k a
  | Throw e => Throw e
  | OutOfFuel => OutOfFuel
  end.

Notation "x <- m ;; k" := (bind m (fun x => k))
  (at level 61, m at next level, right associativity).

(** [BigInt(n)] throws a [RangeError] on [NaN]. *)
Definition BigInt (n : num) : res Z :=
  match n with
  | Int z => Ret z
  | NaN => Throw RangeError
  end.

(** ** Piece types and pieces *)

Module PieceType.
Definition Pawn : Z := 1.
Definition Rook : Z := 2.
Definition Knight : Z := 3.
Definition Bishop : Z := 4.
Definition Queen : Z := 5.
Definition King : Z := 6.
Definition PawnEnPassant : Z := 7.
Definition KingCastle : Z := 8.
Definition RookCastle : Z := 9.
End PieceType.

Module GameState.
Definition Prepared : string := "prepared".
Definition Active : string := "active".
Definition Checkmate : string := "checkmate".
Definition Stalemate : string := "stalemate".
Definition Draw : string := "draw".
End GameState.

Record Piece : Type := mkPiece {
  color : Color;
  type : Z;
  position : string;
  symbol : option string;
}.

(** ** The board *)

Record ChessBoard : Type := mkBoard {
  whitePieces : Z;
  blackPieces : Z;
  pawnsEnPassantWhite : Z;
  pawnsEnPassantBlack : Z;
  whiteCanCastle : bool;
  blackCanCastle : bool;
}.

Definition bitOffset : Z := 4.
Definition maxBinary : Z := 15.

Definition calculateBitLength (position : num) : Z :=
  match position with
  | NaN => 0
  | Int p => p * bitOffset + 64
  end.

Definition setPiece (board : Z) (position : num) (type : Z) : res Z :=
  p <- BigInt position ;;
  let board := Z.lor board (Z.shiftl 1 p) in
  let board := Z.lor board (Z.shiftl type (calculateBitLength position)) in
  Ret board.

Definition removePiece (board : Z) (position : num) : res Z :=
  p <- BigInt position ;;
  let board := Z.land board (Z.lnot (Z.shiftl 1 p)) in
  let board :=
    Z.land board (Z.lnot (Z.shiftl maxBinary (calculateBitLength position))) in
  Ret board.

(** [for (let i = lo; i < hi; i++) board = setPiece(board, i, type)] *)
Fixpoint setPieces (board : Z) (lo : Z) (count : nat) (type : Z) : res Z :=
  match count with
  | O => Ret board
  | S n =>
      board <- setPiece board (Int lo) type ;;
      setPieces board (lo + 1) n type
  end.

Definition initializeWhitePieces (w : Z) : res Z :=
  w <- setPieces w 8 8 PieceType.Pawn ;;
  w <- setPiece w (Int 0) PieceType.Rook ;;
  w <- setPiece w (Int 7) PieceType.Rook ;;
  w <- setPiece w (Int 1) PieceType.Knight ;;
  w <- setPiece w (Int 6) PieceType.Knight ;;
  w <- setPiece w (Int 2) PieceType.Bishop ;;
  w <- setPiece w (Int 5) PieceType.Bishop ;;
  w <- setPiece w (Int 3) PieceType.Queen ;;
  setPiece w (Int 4) PieceType.King.

Definition initializeBlackPieces (k : Z) : res Z :=
  k <- setPieces k 48 8 PieceType.Pawn ;;
  k <- setPiece k (Int 56) PieceType.Rook ;;
  k <- setPiece k (Int 63) PieceType.Rook ;;
  k <- setPiece k (Int 57) PieceType.Knight ;;
  k <- setPiece k (Int 62) PieceType.Knight ;;
  k <- setPiece k (Int 58) PieceType.Bishop ;;
  k <- setPiece k (Int 61) PieceType.Bishop ;;
  k <- setPiece k (Int 59) PieceType.Queen ;;
  setPiece k (Int 60) PieceType.King.

(** The constructor of [ChessBoard]. *)
Definition new_ChessBoard : res ChessBoard :=
  w <- initializeWhitePieces 0 ;;
  k <- initializeBlackPieces 0 ;;
  Ret {| whitePieces := w; blackPieces := k;
         pawnsEnPassantWhite := 0; pawnsEnPassantBlack := 0;
         whiteCanCastle := true; blackCanCastle := true |}.

Definition isOccupiedBy (b : ChessBoard) (position : string) (color : Color)
  : bool :=
  let board :=
    match color with
    | white => whitePieces b
    | black => blackPieces b
    end in
  let coord := positionToCoordinates position in
  let index := coordinatesToIndex coord in
  match index with
  | NaN => false
  | Int i => negb (Z.land (Z.shiftr board i) 1 =? 0)
  end.

(** [String.prototype.toLowerCase], on ASCII. *)
Definition lower_char (c : ascii) : ascii :=
  let n := N_of_ascii c in
  if ((65 <=? n) && (n <=? 90))%N then ascii_of_N (n + 32) else c.

Fixpoint toLowerCase (s : string) : string :=
  match s with
  | EmptyString => EmptyString
  | String c s' => String (lower_char c) (toLowerCase s')
  end.

(** The table [symbols] of [getPieceSymbol]; [None] is [undefined]. *)
Definition symbols (type : Z) : option string :=
  if type =? PieceType.Pawn then Some "P"
  else if type =? PieceType.Rook then Some "R"
  else if type =? PieceType.Knight then Some "N"
  else if type =? PieceType.Bishop then Some "B"
  else if type =? PieceType.Queen then Some "Q"
  else if type =? PieceType.King then Some "K"
  else if type =? PieceType.PawnEnPassant then Some "P"
  else if type =? PieceType.KingCastle then Some "K"
  else if type =? PieceType.RookCastle then Some "R"
  else None.

(** [undefined.toLowerCase()] is a [TypeError]. *)
Definition getPieceSymbol (type : Z) (color : Color) : res (option string) :=
  let symbol := symbols type in
  match color with
  | white => Ret symbol
  | black =>
      match symbol with
      | Some s => Ret (Some (toLowerCase s))
      | None => Throw TypeError
      end
  end.

Definition getPieceAt (b : ChessBoard) (position : string)
  : res (option Piece) :=
  let coord := positionToCoordinates position in
  let index := coordinatesToIndex coord in
  let whiteOccupied := isOccupiedBy b position white in
  let blackOccupied := isOccupiedBy b position black in
  let bitPos := calculateBitLength index in
  if whiteOccupied then
    let type := Z.land (Z.shiftr (whitePieces b) bitPos) maxBinary in
    s <- getPieceSymbol type white ;;
    Ret (Some {| type := type; position := position; color := white;
                 symbol := s |})
  else if blackOccupied then
    let type := Z.land (Z.shiftr (blackPieces b) bitPos) maxBinary in
    s <- getPieceSymbol type black ;;
    Ret (Some {| type := type; position := position; color := black;
                 symbol := s |})
  else Ret None.

Definition isEmpty (b : ChessBoard) (position : string) : res bool :=
  p <- getPieceAt b position ;;
  Ret (match p with None => true | Some _ => false end).

Definition isEnemy (b : ChessBoard) (position : string) (c : Color)
  : res bool :=
  p <- getPieceAt b position ;;
  Ret (match p with
       | None => false
       | Some p => negb (Color_eqb (color p) c)
       end).

(** ** Move generators *)

Definition push (moves : list string) (pos : string) : list string :=
  moves ++ [pos].

Definition direction_of (c : Color) : num :=
  match c with white => Int 1 | black => Int (-1) end.

Definition getPawnMoves (b : ChessBoard) (position : string) (color : Color)
  : res (list string) :=
  let moves := [] in
  let c := positionToCoordinates position in
  let row := row c in
  let col := col c in
  let direction := direction_of color in
  let startRow := match color with white => Int 1 | black => Int 6 end in
  (* Move forward *)
  let pos1 := coordinatesToPosition (mkCoord (nadd row direction) col) in
  e1 <- isEmpty b pos1 ;;
  moves <-
    (if e1 then
       let moves := push moves pos1 in
       let pos2 :=
         coordinatesToPosition
           (mkCoord (nadd row (nmul (Int 2) direction)) col) in
       if nseq row startRow then
         e2 <- isEmpty b pos2 ;;
         Ret (if e2 then push moves pos2 else moves)
       else Ret moves
     else Ret moves) ;;
  (* Captures *)
  let capL :=
    coordinatesToPosition (mkCoord (nadd row direction) (nsub col (Int 1))) in
  let capR :=
    coordinatesToPosition (mkCoord (nadd row direction) (nadd col (Int 1))) in
  enL <- isEnemy b capL color ;;
  let moves := if enL then push moves capL else moves in
  enR <- isEnemy b capR color ;;
  let moves := if enR then push moves capR else moves in
  let enPassantRow := match color with white => Int 4 | black => Int 3 end in
  if nseq row enPassantRow then
    let leftPos := coordinatesToPosition (mkCoord row (nsub col (Int 1))) in
    let rightPos := coordinatesToPosition (mkCoord row (nadd col (Int 1))) in
    l <- isEnemy b leftPos color ;;
    l <- (if l then
            p <- getPieceAt b leftPos ;;
            Ret (match p with
                 | Some p => type p =? PieceType.PawnEnPassant
                 | None => false
                 end)
          else Ret false) ;;
    let moves := if l then push moves capL else moves in
    r <- isEnemy b rightPos color ;;
    r <- (if r then
            p <- getPieceAt b rightPos ;;
            Ret (match p with
                 | Some p => type p =? PieceType.PawnEnPassant
                 | None => false
                 end)
          else Ret false) ;;
    let moves := if r then push moves capR else moves in
    Ret moves
  else Ret moves.

(** The sliding loops of the rook and the bishop,

      [for (let i = i0; cond(i); i += step) {
         const pos = coordinatesToPosition(at(i));
         if (this.isEmpty(pos)) moves.push(pos);
         else { if (this.isEnemy(pos, color)) moves.push(pos); break; }
       }]

    [n] bounds the number of iterations; the callers pass the number of
    values of [i] between [i0] and the end of the board. *)
Fixpoint slide (n : nat) (b : ChessBoard) (color : Color)
    (cond : num -> bool) (at_ : num -> Coord) (step : num) (i : num)
    (moves : list string) : res (list string) :=
  match n with
  | O => Ret moves
  | S n' =>
      if cond i then
        let pos := coordinatesToPosition (at_ i) in
        e <- isEmpty b pos ;;
        if e then slide n' b color cond at_ step (nadd i step) (push moves pos)
        else
          en <- isEnemy b pos color ;;
          Ret (if en then push moves pos else moves)
      else Ret moves
  end.

(** Iterations of a loop counting [i] up while [i < 8], and of a loop
    counting [i] down while [i >= 0]. *)
Definition up_count (i : num) : nat :=
  match i with Int z => Z.to_nat (8 - z) | NaN => O end.

Definition down_count (i : num) : nat :=
  match i with Int z => Z.to_nat (z + 1) | NaN => O end.

Definition getRookMoves_from (moves : list string) (b : ChessBoard)
    (position : string) (color : Color) : res (list string) :=
  let c := positionToCoordinates position in
  let row := row c in
  let col := col c in
  moves <- slide (up_count (nadd col (Int 1))) b color
             (fun i => nlt i (Int 8)) (fun i => mkCoord row i) (Int 1)
             (nadd col (Int 1)) moves ;;
  moves <- slide (down_count (nsub col (Int 1))) b color
             (fun i => nge i (Int 0)) (fun i => mkCoord row i) (Int (-1))
             (nsub col (Int 1)) moves ;;
  moves <- slide (up_count (nadd row (Int 1))) b color
             (fun i => nlt i (Int 8)) (fun i => mkCoord i col) (Int 1)
             (nadd row (Int 1)) moves ;;
  slide (down_count (nsub row (Int 1))) b color
    (fun i => nge i (Int 0)) (fun i => mkCoord i col) (Int (-1))
    (nsub row (Int 1)) moves.

Definition getRookMoves (b : ChessBoard) (position : string) (color : Color)
  : res (list string) :=
  getRookMoves_from [] b position color.

(** In the bishop's loops [i] starts at 1 and one of the two conditions
    bounds it by the distance of the row to the edge it moves towards. *)
Definition getBishopMoves (b : ChessBoard) (position : string) (color : Color)
  : res (list string) :=
  let moves := [] in
  let c := positionToCoordinates position in
  let row := row c in
  let col := col c in
  moves <- slide (up_count (nadd row (Int 1))) b color
             (fun i => nlt (nadd row i) (Int 8) && nlt (nadd col i) (Int 8))
             (fun i => mkCoord (nadd row i) (nadd col i)) (Int 1)
             (Int 1) moves ;;
  moves <- slide (up_count (nadd row (Int 1))) b color
             (fun i => nlt (nadd row i) (Int 8) && nge (nsub col i) (Int 0))
             (fun i => mkCoord (nadd row i) (nsub col i)) (Int 1)
             (Int 1) moves ;;
  moves <- slide (down_count (nsub row (Int 1))) b color
             (fun i => nge (nsub row i) (Int 0) && nlt (nadd col i) (Int 8))
             (fun i => mkCoord (nsub row i) (nadd col i)) (Int 1)
             (Int 1) moves ;;
  slide (down_count (nsub row (Int 1))) b color
    (fun i => nge (nsub row i) (Int 0) && nge (nsub col i) (Int 0))
    (fun i => mkCoord (nsub row i) (nsub col i)) (Int 1)
    (Int 1) moves.

Definition getQueenMoves (b : ChessBoard) (position : string) (color : Color)
  : res (list string) :=
  r <- getRookMoves b position color ;;
  d <- getBishopMoves b position color ;;
  Ret (r ++ d).

Definition in_bounds (move : Coord) : bool :=
  nge (row move) (Int 0) && nlt (row move) (Int 8)
  && nge (col move) (Int 0) && nlt (col move) (Int 8).

Definition offsets (c : Coord) (ds : list (Z * Z)) : list Coord :=
  map (fun d => mkCoord (nadd (row c) (Int (fst d))) (nadd (col c) (Int (snd d))))
      ds.

Definition knightMoves (c : Coord) : list Coord :=
  offsets c [(2, 1); (2, -1); (-2, 1); (-2, -1);
             (1, 2); (1, -2); (-1, 2); (-1, -2)].

Fixpoint knight_loop (b : ChessBoard) (color : Color) (cands : list Coord)
    (moves : list string) : res (list string) :=
  match cands with
  | [] => Ret moves
  | move :: rest =>
      if in_bounds move then
        let pos := coordinatesToPosition (mkCoord (row move) (col move)) in
        e <- isEmpty b pos ;;
        ok <- (if e then Ret true else isEnemy b pos color) ;;
        knight_loop b color rest (if ok then push moves pos else moves)
      else knight_loop b color rest moves
  end.

Definition getKnightMoves (b : ChessBoard) (position : string) (color : Color)
  : res (list string) :=
  knight_loop b color (knightMoves (positionToCoordinates position)) [].

Definition kingMoves (c : Coord) : list Coord :=
  offsets c [(1, 0); (-1, 0); (0, 1); (0, -1);
             (1, 1); (1, -1); (-1, 1); (-1, -1)].

(** The king's generator calls [isKingInCheck], which calls the legal
    moves of every opposing piece, the opposing king's among them.  The
    recursive call is the parameter [attacked]. *)
Section KingMoves.
Variable attacked : string -> Color -> res bool.

Fixpoint king_loop (b : ChessBoard) (color : Color) (cands : list Coord)
    (moves : list string) : res (list string) :=
  match cands with
  | [] => Ret moves
  | move :: rest =>
      if in_bounds move then
        let pos := coordinatesToPosition (mkCoord (row move) (col move)) in
        e <- isEmpty b pos ;;
        free <- (if e then Ret true else isEnemy b pos color) ;;
        ok <- (if free then
                 chk <- attacked pos color ;; Ret (negb chk)
               else Ret false) ;;
        king_loop b color rest (if ok then push moves pos else moves)
      else king_loop b color rest moves
  end.

Definition getKingMoves_with (b : ChessBoard) (position : string)
    (color : Color) : res (list string) :=
  king_loop b color (kingMoves (positionToCoordinates position)) [].

(** [getLegalMoves]; its locals [pos], [bitOffset], [pieceType] and
    [color] are computed and not used. *)
Definition getLegalMoves_with (b : ChessBoard) (position : string)
  : res (list string) :=
  let whiteOccupied := isOccupiedBy b position white in
  let blackOccupied := isOccupiedBy b position black in
  if negb whiteOccupied && negb blackOccupied then Ret []
  else
    piece <- getPieceAt b position ;;
    match piece with
    | None => Ret []
    | Some piece =>
        let t := type piece in
        if (t =? PieceType.Pawn) || (t =? PieceType.PawnEnPassant) then
          getPawnMoves b position (color piece)
        else if (t =? PieceType.Rook) || (t =? PieceType.RookCastle) then
          getRookMoves b position (color piece)
        else if t =? PieceType.Knight then
          getKnightMoves b position (color piece)
        else if t =? PieceType.Bishop then
          getBishopMoves b position (color piece)
        else if t =? PieceType.Queen then
          getQueenMoves b position (color piece)
        else if (t =? PieceType.King) || (t =? PieceType.KingCastle) then
          getKingMoves_with b position (color piece)
        else Ret []
    end.
End KingMoves.

Definition opponent (c : Color) : Color :=
  match c with white => black | black => white end.

Definition range8 : list Z := [0; 1; 2; 3; 4; 5; 6; 7].

(** The squares in the order of the loops [for row ... for col ...]. *)
Definition allSquares : list string :=
  flat_map
    (fun r => map (fun c => coordinatesToPosition (mkCoord (Int r) (Int c)))
                  range8)
    range8.

(** The double loop of [isKingInCheck], returning at the first hit. *)
Fixpoint check_scan (legal : string -> res (list string)) (b : ChessBoard)
    (opponentColor : Color) (kingPosition : string) (sqs : list string)
  : res bool :=
  match sqs with
  | [] => Ret false
  | pos :: rest =>
      if isOccupiedBy b pos opponentColor then
        legalMoves <- legal pos ;;
        if includes legalMoves kingPosition then Ret true
        else check_scan legal b opponentColor kingPosition rest
      else check_scan legal b opponentColor kingPosition rest
  end.

(** [isKingInCheck] with recursion depth [fuel]. *)
Fixpoint isKingInCheck (fuel : nat) (b : ChessBoard) (kingPosition : string)
    (color : Color) : res bool :=
  match fuel with
  | O => OutOfFuel
  | S fuel' =>
      let opponentColor := opponent color in
      check_scan (getLegalMoves_with (isKingInCheck fuel' b) b) b
        opponentColor kingPosition allSquares
  end.

Definition getKingMoves (fuel : nat) (b : ChessBoard) (position : string)
    (color : Color) : res (list string) :=
  getKingMoves_with (isKingInCheck fuel b) b position color.

Definition getLegalMoves (fuel : nat) (b : ChessBoard) (position : string)
  : res (list string) :=
  getLegalMoves_with (isKingInCheck fuel b) b position.

(** ** Methods that change the board

    A method that assigns to fields is a function from the state before
    the call to the outcome of the call and the state after it; the state
    after a thrown exception is the state reached when it was thrown. *)

Definition St (S A : Type) : Type := S -> res A * S.

Definition sret {S A : Type} (a : A) : St S A := fun s => (Ret a, s).

Definition sbind {S A B : Type} (m : St S A) (k : A -> St S B) : St S B :=
  fun s =>
    match m s with
    | (Ret a, s') => k a s'
    | (Throw e, s') => (Throw e, s')
    | (OutOfFuel, s') => (OutOfFuel, s')
    end.

Definition lift {S A : Type} (r : res A) : St S A := fun s => (r, s).

Definition get {S : Type} : St S S := fun s => (Ret s, s).

Definition modify {S : Type} (f : S -> S) : St S unit :=
  fun s => (Ret tt, f s).

Notation "x <~ m ;; k" := (sbind m (fun x => k))
  (at level 61, m at next level, right associativity).

Definition set_whitePieces (w : Z) (b : ChessBoard) : ChessBoard :=
  {| whitePieces := w; blackPieces := blackPieces b;
     pawnsEnPassantWhite := pawnsEnPassantWhite b;
     pawnsEnPassantBlack := pawnsEnPassantBlack b;
     whiteCanCastle := whiteCanCastle b; blackCanCastle := blackCanCastle b |}.

Definition set_blackPieces (k : Z) (b : ChessBoard) : ChessBoard :=
  {| whitePieces := whitePieces b; blackPieces := k;
     pawnsEnPassantWhite := pawnsEnPassantWhite b;
     pawnsEnPassantBlack := pawnsEnPassantBlack b;
     whiteCanCastle := whiteCanCastle b; blackCanCastle := blackCanCastle b |}.

Definition set_pawnsEnPassantWhite (v : Z) (b : ChessBoard) : ChessBoard :=
  {| whitePieces := whitePieces b; blackPieces := blackPieces b;
     pawnsEnPassantWhite := v;
     pawnsEnPassantBlack := pawnsEnPassantBlack b;
     whiteCanCastle := whiteCanCastle b; blackCanCastle := blackCanCastle b |}.

Definition set_pawnsEnPassantBlack (v : Z) (b : ChessBoard) : ChessBoard :=
  {| whitePieces := whitePieces b; blackPieces := blackPieces b;
     pawnsEnPassantWhite := pawnsEnPassantWhite b;
     pawnsEnPassantBlack := v;
     whiteCanCastle := whiteCanCastle b; blackCanCastle := blackCanCastle b |}.

Definition capturePiece (position : string) : St ChessBoard bool :=
  let coord := positionToCoordinates position in
  let index := coordinatesToIndex coord in
  b <~ get ;;
  if isOccupiedBy b position white then
    w <~ lift (removePiece (whitePieces b) index) ;;
    _ <~ modify (set_whitePieces w) ;;
    sret true
  else if isOccupiedBy b position black then
    k <~ lift (removePiece (blackPieces b) index) ;;
    _ <~ modify (set_blackPieces k) ;;
    sret true
  else sret false.

Definition movePiece (from to : string) : St ChessBoard bool :=
  let fromCoords := positionToCoordinates from in
  let toCoords := positionToCoordinates to in
  let fromIndex := nadd (nmul (row fromCoords) (Int 8)) (col fromCoords) in
  let toIndex := nadd (nmul (row toCoords) (Int 8)) (col toCoords) in
  b0 <~ get ;;
  let whiteOccupied := isOccupiedBy b0 from white in
  let blackOccupied := isOccupiedBy b0 from black in
  piece <~ lift (getPieceAt b0 from) ;;
  match piece with
  | None => sret false
  | Some piece =>
      (* Check for en passant capture *)
      _ <~ (if (type piece =? PieceType.Pawn)
               && nseq (nabs (nsub (row fromCoords) (row toCoords))) (Int 1)
               && nseq (nabs (nsub (col fromCoords) (col toCoords))) (Int 1)
            then
              e <~ lift (isEmpty b0 to) ;;
              if e then
                let enPassantPos :=
                  coordinatesToPosition
                    (mkCoord (row fromCoords) (col toCoords)) in
                if isOccupiedBy b0 enPassantPos (opponent (color piece)) then
                  _ <~ capturePiece enPassantPos ;; sret tt
                else sret tt
              else sret tt
            else sret tt) ;;
      _ <~ (if whiteOccupied then
              b <~ get ;;
              w <~ lift (removePiece (whitePieces b) fromIndex) ;;
              _ <~ modify (set_whitePieces w) ;;
              w <~ lift (setPiece w toIndex (type piece)) ;;
              modify (set_whitePieces w)
            else if blackOccupied then
              b <~ get ;;
              k <~ lift (removePiece (blackPieces b) fromIndex) ;;
              _ <~ modify (set_blackPieces k) ;;
              k <~ lift (setPiece k toIndex (type piece)) ;;
              modify (set_blackPieces k)
            else sret tt) ;;
      (* Clear en passant flags if necessary *)
      _ <~ (if type piece =? PieceType.Pawn then
              match color piece with
              | white =>
                  _ <~ modify (set_pawnsEnPassantWhite 0) ;;
                  if nseq (row fromCoords) (Int 1)
                     && nseq (row toCoords) (Int 3)
                  then
                    v <~ lift (setPiece 0 toIndex PieceType.PawnEnPassant) ;;
                    modify (set_pawnsEnPassantWhite v)
                  else sret tt
              | black =>
                  _ <~ modify (set_pawnsEnPassantBlack 0) ;;
                  if nseq (row fromCoords) (Int 6)
                     && nseq (row toCoords) (Int 4)
                  then
                    v <~ lift (setPiece 0 toIndex PieceType.PawnEnPassant) ;;
                    modify (set_pawnsEnPassantBlack v)
                  else sret tt
              end
            else sret tt) ;;
      sret true
  end.

Definition homeRow (c : Color) : num :=
  match c with white => Int 0 | black => Int 7 end.

Inductive Side : Type := king | queen.

(** The loops [for (let i = lo; i < hi; i++) if (!isEmpty(...)) return false]
    of [canCastle]: [Ret true] when every square is empty. *)
Fixpoint all_empty (b : ChessBoard) (row : num) (cols : list Z) : res bool :=
  match cols with
  | [] => Ret true
  | i :: rest =>
      e <- isEmpty b (coordinatesToPosition (mkCoord row (Int i))) ;;
      if negb e then Ret false else all_empty b row rest
  end.

(** The constants of [canCastle]: the squares of the king and of the
    rook, the columns between them, the square the king castles to. *)
Definition kingPos (c : Color) : string :=
  coordinatesToPosition (mkCoord (homeRow c) (Int 4)).

Definition rookPos (c : Color) (s : Side) : string :=
  match s with
  | king => coordinatesToPosition (mkCoord (homeRow c) (Int 7))
  | queen => coordinatesToPosition (mkCoord (homeRow c) (Int 0))
  end.

Definition between (s : Side) : list Z :=
  match s with king => [5; 6] | queen => [1; 2; 3] end.

Definition newKingPos (c : Color) (s : Side) : string :=
  match s with
  | king => coordinatesToPosition (mkCoord (homeRow c) (Int 6))
  | queen => coordinatesToPosition (mkCoord (homeRow c) (Int 2))
  end.

Definition canCastle (fuel : nat) (b : ChessBoard) (color : Color)
    (side : Side) : res bool :=
  let row := homeRow color in
  kingPiece <- getPieceAt b (kingPos color) ;;
  rookPiece <- getPieceAt b (rookPos color side) ;;
  match kingPiece, rookPiece with
  | Some kingPiece, Some rookPiece =>
      (* Check if the king or rook has moved *)
      if negb (type kingPiece =? PieceType.King)
         || negb (type rookPiece =? PieceType.Rook)
      then Ret false
      else
        (* Check if there are pieces between the king and the rook *)
        free <- all_empty b row (between side) ;;
        if negb free then Ret false
        else
          (* Check if the king is in check *)
          c1 <- isKingInCheck fuel b (kingPos color) color ;;
          if c1 then Ret false
          else
            (* Check if the new position is being attacked *)
            c2 <- isKingInCheck fuel b (newKingPos color side) color ;;
            if c2 then Ret false else Ret true
  | _, _ => Ret false
  end.

(** The search of [isColorInCheck] for the king: the first square, in
    the order of the loops, holding a king of the color. *)
Fixpoint find_king (b : ChessBoard) (c : Color) (sqs : list string)
  : res (option string) :=
  match sqs with
  | [] => Ret None
  | pos :: rest =>
      piece <- getPieceAt b pos ;;
      match piece with
      | Some p =>
          if (type p =? PieceType.King) && Color_eqb (color p) c
          then Ret (Some pos)
          else find_king b c rest
      | None => find_king b c rest
      end
  end.

Definition isColorInCheck (fuel : nat) (b : ChessBoard) (color : Color)
  : res bool :=
  kingPosition <- find_king b color allSquares ;;
  match kingPosition with
  | None => Ret false
  | Some kingPosition => isKingInCheck fuel b kingPosition color
  end.

Definition isCheckmate (fuel : nat) (b : ChessBoard) (kingPosition : string)
    (color : Color) : res bool :=
  c <- isKingInCheck fuel b kingPosition color ;;
  if negb c then Ret false
  else
    legalMoves <- getLegalMoves fuel b kingPosition ;;
    Ret (Nat.eqb (List.length legalMoves) 0).

(** [getDistribution]: the symbol of the piece of every square, ["."] for
    an empty one; [None] is the [undefined] symbol of a white piece of an
    unknown type. *)
Fixpoint distribution (b : ChessBoard) (sqs : list string)
  : res (list (option string)) :=
  match sqs with
  | [] => Ret []
  | pos :: rest =>
      piece <- getPieceAt b pos ;;
      dist <- distribution b rest ;;
      Ret (match piece with
           | Some p => symbol p
           | None => Some "."
           end :: dist)
  end.

Definition getDistribution (b : ChessBoard) : res (list (option string)) :=
  distribution b allSquares.

(** ** The game *)

Record User : Type := mkUser { user_id : string; user_name : string }.

Record ChessPlayer : Type := mkPlayer {
  side : Color;
  user : User;
}.

(** The fields [id] and [name] of a room game player are those of its
    user. *)
Definition player_id (p : ChessPlayer) : string := user_id (user p).
Definition player_name (p : ChessPlayer) : string := user_name (user p).

Definition oppositeSide (p : ChessPlayer) : Color := opponent (side p).

(** Objects used as dictionaries with string keys, in insertion order. *)
Definition dict (V : Type) : Type := list (string * V).

Fixpoint dict_get {V : Type} (d : dict V) (k : string) : option V :=
  match d with
  | [] => None
  | (k', v) :: d' => if String.eqb k' k then Some v else dict_get d' k
  end.

Fixpoint dict_set {V : Type} (d : dict V) (k : string) (v : V) : dict V :=
  match d with
  | [] => [(k, v)]
  | (k', v') :: d' =>
      if String.eqb k' k then (k, v) :: d' else (k', v') :: dict_set d' k v
  end.

Record ChessGame : Type := mkGame {
  turn : string;
  sides : dict ChessPlayer;
  playerTable : dict ChessPlayer;
  history : list string;
  board : ChessBoard;
  players : list ChessPlayer;
  state : string;
  check : dict bool;
}.

Definition new_ChessGame : res ChessGame :=
  b <- new_ChessBoard ;;
  Ret {| turn := ""; sides := []; playerTable := []; players := [];
         history := []; board := b; state := GameState.Prepared;
         check := [] |}.

Definition set_turn (t : string) (g : ChessGame) : ChessGame :=
  {| turn := t; sides := sides g; playerTable := playerTable g;
     players := players g; history := history g; board := board g;
     state := state g; check := check g |}.

Definition set_history (h : list string) (g : ChessGame) : ChessGame :=
  {| turn := turn g; sides := sides g; playerTable := playerTable g;
     players := players g; history := h; board := board g;
     state := state g; check := check g |}.

Definition set_board (b : ChessBoard) (g : ChessGame) : ChessGame :=
  {| turn := turn g; sides := sides g; playerTable := playerTable g;
     players := players g; history := history g; board := b;
     state := state g; check := check g |}.

Definition set_state (s : string) (g : ChessGame) : ChessGame :=
  {| turn := turn g; sides := sides g; playerTable := playerTable g;
     players := players g; history := history g; board := board g;
     state := s; check := check g |}.

Definition makePlayer (u : User) : ChessPlayer :=
  {| side := white; user := u |}.

Definition addPlayer (u : User) : St ChessGame (option ChessPlayer) :=
  g <~ get ;;
  if Nat.eqb (List.length (players g)) 2 then sret None
  else
    let player := makePlayer u in
    let player :=
      match players g with
      | [p0] => {| side := oppositeSide p0; user := user player |}
      | _ => player
      end in
    _ <~ modify (fun g =>
           {| turn := turn g;
              sides := dict_set (sides g) (Color_to_string (side player)) player;
              playerTable := dict_set (playerTable g) (user_id u) player;
              players := players g ++ [player];
              history := history g; board := board g;
              state := state g; check := check g |}) ;;
    sret (Some player).

(** A method of the board called on the board of the game. *)
Definition on_board {A : Type} (m : St ChessBoard A) : St ChessGame A :=
  fun g =>
    let (r, b) := m (board g) in (r, set_board b g).

(** [sendBoard]: the board is rendered once for every player, from
    [getDistribution]; the text goes to the users and is not part of the
    state. *)
Fixpoint sendBoard_loop (b : ChessBoard) (ps : list ChessPlayer) : res unit :=
  match ps with
  | [] => Ret tt
  | _ :: rest => _ <- getDistribution b ;; sendBoard_loop b rest
  end.

Definition sendBoard : St ChessGame unit :=
  g <~ get ;; lift (sendBoard_loop (board g) (players g)).

Definition throw {S A : Type} (msg : string) : St S A :=
  lift (Throw (ErrorMessage msg)).

Definition move (fuel : nat) (player : ChessPlayer) (from to : string)
  : St ChessGame unit :=
  let fromCoord := positionToCoordinates from in
  let toCoord := positionToCoordinates to in
  let fromPos := coordinatesToPosition fromCoord in
  let toPos := coordinatesToPosition toCoord in
  g <~ get ;;
  legal <~ lift (getLegalMoves fuel (board g) fromPos) ;;
  if negb (includes legal toPos) then
    throw (String.append "Invalid move from "
             (String.append from (String.append " to " (String.append to "."))))
  else
    fromPiece <~ lift (getPieceAt (board g) fromPos) ;;
    toPiece <~ lift (getPieceAt (board g) toPos) ;;
    match fromPiece with
    | None =>
        throw (String.append "There is no piece at " (String.append from "."))
    | Some fromPiece =>
        if negb (Color_eqb (color fromPiece) (side player)) then
          throw "It's not your turn to move."
        else if match toPiece with
                | Some toPiece => Color_eqb (color toPiece) (side player)
                | None => false
                end
        then throw "You can't capture your own piece."
        else
          moved <~ on_board (movePiece fromPos toPos) ;;
          if moved then
            _ <~ modify (fun g =>
                   set_history
                     (history g ++ [String.append from (String.append " " to)])
                     g) ;;
            _ <~ sendBoard ;;
            g <~ get ;;
            match dict_get (sides g) (Color_to_string (oppositeSide player)) with
            | Some other => modify (set_turn (Color_to_string (side other)))
            | None => lift (Throw TypeError)
            end
          else sret tt
    end.

(** The method [start] of a game. *)
Definition start : St ChessGame unit :=
  _ <~ modify (set_state GameState.Active) ;;
  g <~ get ;;
  _ <~ match dict_get (sides g) "white" with
       | Some player => modify (set_turn (player_id player))
       | None => sret tt
       end ;;
  g <~ get ;;
  match dict_get (playerTable g) (turn g) with
  | Some _ => sret tt
  | None => lift (Throw TypeError)
  end.

(** The static [ChessGame.start(user, targetUser)]: a new game with both
    players seated, started. *)
Definition ChessGame_start (u targetUser : User) : res ChessGame :=
  chess <- new_ChessGame ;;
  let (r, chess) :=
    (_ <~ addPlayer u ;; _ <~ addPlayer targetUser ;; start) chess in
  _ <- r ;; Ret chess.

(** ** Two seated players and sequences of submitted moves *)

Definition alice : User := {| user_id := "alice"; user_name := "Alice" |}.
Definition bob : User := {| user_id := "bob"; user_name := "Bob" |}.

Definition whitePlayer : ChessPlayer := {| side := white; user := alice |}.
Definition blackPlayer : ChessPlayer := {| side := black; user := bob |}.

(** The submissions of a list, one after the other, each by the given
    player; the first that does not return ends the sequence. *)
Fixpoint submit (fuel : nat) (ms : list (ChessPlayer * string * string))
  : St ChessGame unit :=
  match ms with
  | [] => sret tt
  | (p, from, to) :: rest =>
      _ <~ move fuel p from to ;; submit fuel rest
  end.

(** The game of Alice (white) and Bob (black) after the submissions. *)
Definition game_after (fuel : nat) (ms : list (ChessPlayer * string * string))
  : res ChessGame :=
  g <- ChessGame_start alice bob ;;
  let (r, g) := submit fuel ms g in
  _ <- r ;; Ret g.

Definition W (from to : string) := (whitePlayer, from, to).
Definition B (from to : string) := (blackPlayer, from, to).

(** The board of a new game, and the game of Alice and Bob at its start. *)
Definition initialBoard : ChessBoard :=
  Eval vm_compute in
    match new_ChessBoard with
    | Ret b => b
    | _ => mkBoard 0 0 0 0 true true
    end.

Definition initialGame : ChessGame :=
  Eval vm_compute in
    match ChessGame_start alice bob with
    | Ret g => g
    | _ => mkGame "" [] [] [] initialBoard [] "" []
    end.

(** ** Predicates and positions used in the statements *)

(** A call that throws no message for the player, and a method that
    throws none in any state. *)
Definition quiet {A : Type} (r : res A) : Prop :=
  forall msg, r <> Throw (ErrorMessage msg).

Definition squiet {S A : Type} (m : St S A) : Prop :=
  forall s, quiet (fst (m s)).

(** [f2] answers as [f1] wherever [f1] does not run out of depth. *)
Definition refines {X Y A : Type} (f1 f2 : X -> Y -> res A) : Prop :=
  forall x y, f1 x y <> OutOfFuel -> f2 x y = f1 x y.

(** The loop variable after [j] rounds. *)
Definition advance (step : num) (j : nat) (i : num) : num :=
  Nat.iter j (fun x => nadd x step) i.

(** The game after 1. e2-e4 e7-e5. *)
Definition game_e4_e5 : ChessGame :=
  Eval vm_compute in
    match game_after 0 [W "e2" "e4"; B "e7" "e5"] with
    | Ret g => g
    | _ => initialGame
    end.

(** A method of the game that leaves the field [state] alone. *)
Definition keeps_state {A : Type} (m : St ChessGame A) : Prop :=
  forall g, state (snd (m g)) = state g.

(** The moves of the fool's mate. *)
Definition fools_mate : list (ChessPlayer * string * string) :=
  [W "f2" "f3"; B "e7" "e5"; W "g2" "g4"; B "d8" "h4"].

(** The game after 1. e2-e4 b7-b6 2. Ng1-f3 Bc8-a6 3. g2-g3 h7-h6
    4. Bf1-g2: the white king and rook are on e1 and h1, f1 and g1 are
    empty, and the black bishop on a6 attacks f1. *)
Definition castle_moves : list (ChessPlayer * string * string) :=
  [W "e2" "e4"; B "b7" "b6"; W "g1" "f3"; B "c8" "a6";
   W "g2" "g3"; B "h7" "h6"; W "f1" "g2"].



(** The types [getLegalMoves] sends to the king's generator. *)
Definition is_king (p : Piece) : bool :=
  (type p =? PieceType.King) || (type p =? PieceType.KingCastle).

(** No piece of the opponent of [c] has the square [d] among the legal
    moves that [getLegalMoves] returns for it within depth [fuel]: for
    every square of the board that the opponent occupies the legal moves
    are returned, and [d] is not one of them. *)
Definition out_of_reach (fuel : nat) (b : ChessBoard) (c : Color)
    (d : string) : Prop :=
  forall q, In q allSquares -> isOccupiedBy b q (opponent c) = true ->
    exists moves, getLegalMoves fuel b q = Ret moves /\ ~ In d moves.

(** Accepted moves, the two players in turn, that take the black pawn of
    the a-file to a1: 1. a2-a4 b7-b5 2. a4xb5 a7-a5 3. Ra1-a3 a5-a4
    4. Ra3-c3 a4-a3 5. h2-h3 a3-a2 6. h3-h4 a2-a1. *)
Definition pawn_to_a1 : list (ChessPlayer * string * string) :=
  [W "a2" "a4"; B "b7" "b5"; W "a4" "b5"; B "a7" "a5";
   W "a1" "a3"; B "a5" "a4"; W "a3" "c3"; B "a4" "a3";
   W "h2" "h3"; B "a3" "a2"; W "h3" "h4"; B "a2" "a1"].

(** ** Further methods of the board and of the game, with the predicates
    their properties are stated with *)

(** [isEnPassant]: a pawn moving two rows onto an empty square. *)
Definition isEnPassant (b : ChessBoard) (from to : string) : res bool :=
  fromPiece <- getPieceAt b from ;;
  toPiece <- getPieceAt b to ;;
  let isPawn :=
    match fromPiece with
    | Some p => type p =? PieceType.Pawn
    | None => false
    end in
  let toNull := match toPiece with None => true | Some _ => false end in
  if negb isPawn || negb toNull then Ret false
  else
    let fromCoord := positionToCoordinates from in
    let toCoord := positionToCoordinates to in
    Ret (nseq (nabs (nsub (row fromCoord) (row toCoord))) (Int 2)).

(** [isCapture]; the color of a missing piece is [undefined], which
    differs from every color. *)
Definition isCapture (b : ChessBoard) (from to : string) : res bool :=
  fromPiece <- getPieceAt b from ;;
  toPiece <- getPieceAt b to ;;
  Ret (match toPiece with
       | None => false
       | Some t =>
           match fromPiece with
           | Some f => negb (Color_eqb (color t) (color f))
           | None => true
           end
       end).

(** [isPromotion]: a pawn moving onto row 0 or row 7. *)
Definition isPromotion (b : ChessBoard) (from to : string) : res bool :=
  fromPiece <- getPieceAt b from ;;
  let toCoord := positionToCoordinates to in
  Ret (match fromPiece with
       | Some p => type p =? PieceType.Pawn
       | None => false
       end
       && (nseq (row toCoord) (Int 0) || nseq (row toCoord) (Int 7))).


(** [getPlayer]: the player of a user, or a message for the user. *)
Definition getPlayer (g : ChessGame) (u : User) : res ChessPlayer :=
  match dict_get (playerTable g) (user_id u) with
  | Some player => Ret player
  | None =>
      Throw (ErrorMessage "You are not a player in the current game of Chess.")
  end.

(** [reflectDistribution]: entry [i * 8 + j] becomes the entry
    [(7 - i) * 8 + j] of the array before the call ([undefined], here
    [None], when the array is too short); entries from 64 on stay. *)
Definition reflectDistribution (dist : list (option string))
  : list (option string) :=
  flat_map
    (fun i => map (fun j => nth ((7 - i) * 8 + j)%nat dist None) (seq 0 8))
    (seq 0 8)
  ++ skipn 64 dist.

(** The game after the first move e2-e4. *)
Definition game_e4 : ChessGame :=
  Eval vm_compute in snd (move 0 whitePlayer "e2" "e4" initialGame).

(** A square a piece of color [c] may move to: empty, or holding a
    piece of the other color. *)
Definition free_for (b : ChessBoard) (c : Color) (d : string) : Prop :=
  isEmpty b d = Ret true \/ isEnemy b d c = Ret true.

(** The square ahead of a pawn. *)
Definition ahead (pos : string) (c : Color) : string :=
  coordinatesToPosition
    (mkCoord (nadd (row (positionToCoordinates pos)) (direction_of c))
             (col (positionToCoordinates pos))).

(** A method that leaves an observation [f] of the state alone. *)
Definition preserves {S A X : Type} (f : S -> X) (m : St S A) : Prop :=
  forall s, f (snd (m s)) = f s.

(** The game after 1. e2-e4 d7-d5 2. e4xd5. *)
Definition game_exd5 : ChessGame :=
  Eval vm_compute in
    match game_after 0 [W "e2" "e4"; B "d7" "d5"; W "e4" "d5"] with
    | Ret g => g
    | _ => initialGame
    end.

(** A call that comes back, with a value or an exception, within the
    given recursion depth. *)
Definition lands {A : Type} (r : res A) : Prop := r <> OutOfFuel.

(** The index of a position string. *)
Definition index_of (s : string) : num :=
  coordinatesToIndex (positionToCoordinates s).

(** The position string of an index. *)
Definition position_of_index (i : num) : string :=
  match i with
  | Int z => coordinatesToPosition (mkCoord (Int (z / 8)) (Int (z mod 8)))
  | NaN => EmptyString
  end.

(** A position string through its coordinates and back. *)
Definition fromPos_of (from : string) : string :=
  coordinatesToPosition (positionToCoordinates from).

(** Bounds on a number that is not [NaN]. *)
Definition at_least (lo : Z) (i : num) : Prop := exists z, i = Int z /\ lo <= z.
Definition at_most (hi : Z) (i : num) : Prop := exists z, i = Int z /\ z <= hi.

(** The type bits of square [i] in a bit field, as [getPieceAt] reads
    them. *)
Definition typeAt (w i : Z) : Z :=
  Z.land (Z.shiftr w (calculateBitLength (Int i))) maxBinary.

(** The bit field of a color. *)
Definition field (c : Color) (b : ChessBoard) : Z :=
  match c with white => whitePieces b | black => blackPieces b end.

(** The three steps of [movePiece] for the piece found on the source
    square: the capture en passant, the piece taken from its square and
    set on the other, the en passant flags. *)
Definition enPassantStep (b0 : ChessBoard) (from to : string) (piece : Piece)
  : St ChessBoard unit :=
  let fromCoords := positionToCoordinates from in
  let toCoords := positionToCoordinates to in
  if (type piece =? PieceType.Pawn)
     && nseq (nabs (nsub (row fromCoords) (row toCoords))) (Int 1)
     && nseq (nabs (nsub (col fromCoords) (col toCoords))) (Int 1)
  then
    e <~ lift (isEmpty b0 to) ;;
    if e then
      let enPassantPos :=
        coordinatesToPosition (mkCoord (row fromCoords) (col toCoords)) in
      if isOccupiedBy b0 enPassantPos (opponent (color piece)) then
        _ <~ capturePiece enPassantPos ;; sret tt
      else sret tt
    else sret tt
  else sret tt.

Definition relocate (c : Color) (fromIndex toIndex : num) (t : Z)
  : St ChessBoard unit :=
  match c with
  | white =>
      b <~ get ;;
      w <~ lift (removePiece (whitePieces b) fromIndex) ;;
      _ <~ modify (set_whitePieces w) ;;
      w <~ lift (setPiece w toIndex t) ;;
      modify (set_whitePieces w)
  | black =>
      b <~ get ;;
      k <~ lift (removePiece (blackPieces b) fromIndex) ;;
      _ <~ modify (set_blackPieces k) ;;
      k <~ lift (setPiece k toIndex t) ;;
      modify (set_blackPieces k)
  end.

Definition flagStep (from to : string) (piece : Piece) : St ChessBoard unit :=
  let fromCoords := positionToCoordinates from in
  let toCoords := positionToCoordinates to in
  let toIndex := coordinatesToIndex toCoords in
  if type piece =? PieceType.Pawn then
    match color piece with
    | white =>
        _ <~ modify (set_pawnsEnPassantWhite 0) ;;
        if nseq (row fromCoords) (Int 1) && nseq (row toCoords) (Int 3)
        then
          v <~ lift (setPiece 0 toIndex PieceType.PawnEnPassant) ;;
          modify (set_pawnsEnPassantWhite v)
        else sret tt
    | black =>
        _ <~ modify (set_pawnsEnPassantBlack 0) ;;
        if nseq (row fromCoords) (Int 6) && nseq (row toCoords) (Int 4)
        then
          v <~ lift (setPiece 0 toIndex PieceType.PawnEnPassant) ;;
          modify (set_pawnsEnPassantBlack v)
        else sret tt
    end
  else sret tt.

(** Setting the bit field of a color. *)
Definition set_field (c : Color) (w : Z) (b : ChessBoard) : ChessBoard :=
  match c with
  | white => set_whitePieces w b
  | black => set_blackPieces w b
  end.

(** The fields after a step differ from the fields before at most by a
    piece removed from square [i]. *)
Definition touched (i : Z) (b s : ChessBoard) : Prop :=
  forall c, field c s = field c b \/
            removePiece (field c b) (Int i) = Ret (field c s).

(** On a clean board the type bits of a square that a color does not
    occupy are zero in the field of that color. *)
Definition clean (b : ChessBoard) : Prop :=
  forall c i, 0 <= i < 64 -> Z.testbit (field c b) i = false ->
              typeAt (field c b) i = 0.

(** The same for one bit field. *)
Definition cleanField (w : Z) : Prop :=
  forall i, 0 <= i < 64 -> Z.testbit w i = false -> typeAt w i = 0.

(** * Properties *)

Lemma new_ChessBoard_initialBoard : new_ChessBoard = Ret initialBoard.
Proof. reflexivity. Qed.

Lemma ChessGame_start_initialGame : ChessGame_start alice bob = Ret initialGame.
Proof. reflexivity. Qed.

Lemma game_after_nil (fuel : nat) : game_after fuel [] = Ret initialGame.
Proof. reflexivity. Qed.

(** ** Positions and coordinates *)

(** C9: for every valid position string (a file letter a..h followed by a
    rank digit 1..8), converting it to coordinates and back gives the
    string again. *)
Theorem position_roundtrip (s : string) :
  valid_position s ->
  coordinatesToPosition (positionToCoordinates s) = s.
Proof.
  intros (f & r & Hf & Hr & ->).
  unfold files in Hf; unfold ranks in Hr; simpl in Hf, Hr.
  repeat (destruct Hf as [<- | Hf]; [ | ]);
    try contradiction;
    repeat (destruct Hr as [<- | Hr]; [ | ]);
    try contradiction; reflexivity.
Qed.

Lemma position_roundtrip_witness :
  valid_position "e4" /\
  coordinatesToPosition (positionToCoordinates "e4") = "e4".
Proof.
  assert (H : valid_position "e4").
  { exists "e"%char, "4"%char. simpl. intuition. }
  split; [ exact H | exact (position_roundtrip "e4" H) ].
Defined.

(** The 64 squares visited by the loops are exactly the valid positions. *)
Lemma allSquares_valid (s : string) : In s allSquares <-> valid_position s.
Proof.
  split.
  - intros H. vm_compute in H.
    repeat (destruct H as [<- | H];
            [ eexists; eexists; simpl; split; [ | split; [ | reflexivity ] ];
              intuition | ]).
    contradiction.
  - intros (f & r & Hf & Hr & ->).
    unfold files in Hf; unfold ranks in Hr; simpl in Hf, Hr.
    repeat (destruct Hf as [<- | Hf]; [ | ]);
      try contradiction;
      repeat (destruct Hr as [<- | Hr]; [ | ]);
      try contradiction; vm_compute;
      repeat first [ left; reflexivity | right ].
Qed.

(** ** The bounds of the sliding loops

    The number of iterations the callers of [slide] allow is never the
    reason a loop ends: once it is used up the condition of the loop is
    false, so that a larger bound gives the same moves. *)

Lemma advance_S (step : num) (j : nat) (i : num) :
  advance step (S j) i = advance step j (nadd i step).
Proof.
  unfold advance. induction j as [ | j IH]; [ reflexivity | ].
  simpl in *. rewrite IH. reflexivity.
Qed.

Lemma slide_bound (n k : nat) (b : ChessBoard) (c : Color)
    (cond : num -> bool) (at_ : num -> Coord) (step : num) :
  forall (i : num) (moves : list string),
    (forall j, (n <= j)%nat -> cond (advance step j i) = false) ->
    slide (n + k) b c cond at_ step i moves = slide n b c cond at_ step i moves.
Proof.
  induction n as [ | n IH]; intros i moves H.
  - specialize (H O (le_n 0)). simpl in H.
    destruct k as [ | k]; simpl; [ reflexivity | ]. rewrite H. reflexivity.
  - simpl. destruct (cond i); [ | reflexivity ].
    destruct (isEmpty b _) as [[ | ] | e | ]; simpl; try reflexivity.
    apply IH. intros j Hj. rewrite <- advance_S. apply H. lia.
Qed.

Lemma advance_Int (s : Z) (j : nat) (z : Z) :
  advance (Int s) j (Int z) = Int (z + Z.of_nat j * s).
Proof.
  revert z. induction j as [ | j IH]; intros z.
  - simpl. f_equal. lia.
  - rewrite advance_S. simpl nadd. rewrite IH. f_equal. lia.
Qed.

Lemma advance_NaN (step : num) (j : nat) : advance step j NaN = NaN.
Proof.
  induction j as [ | j IH]; [ reflexivity | ].
  change (advance step (S j) NaN) with (nadd (advance step j NaN) step).
  rewrite IH. reflexivity.
Qed.

(** A loop [for (i = i0; i < 8; i++)] ends within [up_count i0] rounds, a
    loop [for (i = i0; i >= 0; i--)] within [down_count i0]. *)
Lemma up_count_ends (i : num) (j : nat) :
  (up_count i <= j)%nat -> nlt (advance (Int 1) j i) (Int 8) = false.
Proof.
  destruct i as [z | ]; intros H.
  - rewrite advance_Int. cbn [nlt up_count] in *. apply Z.ltb_ge. lia.
  - rewrite advance_NaN. reflexivity.
Qed.

Lemma down_count_ends (i : num) (j : nat) :
  (down_count i <= j)%nat -> nge (advance (Int (-1)) j i) (Int 0) = false.
Proof.
  destruct i as [z | ]; intros H.
  - rewrite advance_Int. cbn [nge down_count] in *. unfold Z.geb.
    destruct (Z.compare_spec (z + Z.of_nat j * -1) 0); try reflexivity; lia.
  - rewrite advance_NaN. reflexivity.
Qed.

(** The loops of the bishop count [i] up from 1 and stop with the row:
    [row + i < 8] fails after [up_count (row + 1)] rounds and
    [row - i >= 0] after [down_count (row - 1)]. *)
Lemma bishop_up_ends (r : num) (j : nat) :
  (up_count (nadd r (Int 1)) <= j)%nat ->
  nlt (nadd r (advance (Int 1) j (Int 1))) (Int 8) = false.
Proof.
  rewrite advance_Int. destruct r as [z | ]; intros H; [ | reflexivity ].
  cbn [nadd nlt up_count] in *. apply Z.ltb_ge. lia.
Qed.

Lemma bishop_down_ends (r : num) (j : nat) :
  (down_count (nsub r (Int 1)) <= j)%nat ->
  nge (nsub r (advance (Int 1) j (Int 1))) (Int 0) = false.
Proof.
  rewrite advance_Int. destruct r as [z | ]; intros H; [ | reflexivity ].
  cbn [nsub nge down_count] in *. unfold Z.geb.
  destruct (Z.compare_spec (z - (1 + Z.of_nat j * 1)) 0); try reflexivity; lia.
Qed.

(** The four shapes of loop in [getRookMoves] and [getBishopMoves], with
    [k] more rounds allowed than the callers allow. *)
Lemma slide_up_bound (k : nat) (b : ChessBoard) (c : Color)
    (at_ : num -> Coord) (i : num) (moves : list string) :
  slide (up_count i + k) b c (fun i => nlt i (Int 8)) at_ (Int 1) i moves
  = slide (up_count i) b c (fun i => nlt i (Int 8)) at_ (Int 1) i moves.
Proof. apply slide_bound. intros j Hj. apply up_count_ends, Hj. Qed.

Lemma slide_down_bound (k : nat) (b : ChessBoard) (c : Color)
    (at_ : num -> Coord) (i : num) (moves : list string) :
  slide (down_count i + k) b c (fun i => nge i (Int 0)) at_ (Int (-1)) i moves
  = slide (down_count i) b c (fun i => nge i (Int 0)) at_ (Int (-1)) i moves.
Proof. apply slide_bound. intros j Hj. apply down_count_ends, Hj. Qed.

Lemma slide_bishop_up_bound (k : nat) (b : ChessBoard) (c : Color)
    (r : num) (other : num -> bool) (at_ : num -> Coord)
    (moves : list string) :
  let cond := fun i => nlt (nadd r i) (Int 8) && other i in
  slide (up_count (nadd r (Int 1)) + k) b c cond at_ (Int 1) (Int 1) moves
  = slide (up_count (nadd r (Int 1))) b c cond at_ (Int 1) (Int 1) moves.
Proof.
  intros cond. apply slide_bound. intros j Hj. unfold cond.
  rewrite bishop_up_ends by exact Hj. reflexivity.
Qed.

Lemma slide_bishop_down_bound (k : nat) (b : ChessBoard) (c : Color)
    (r : num) (other : num -> bool) (at_ : num -> Coord)
    (moves : list string) :
  let cond := fun i => nge (nsub r i) (Int 0) && other i in
  slide (down_count (nsub r (Int 1)) + k) b c cond at_ (Int 1) (Int 1) moves
  = slide (down_count (nsub r (Int 1))) b c cond at_ (Int 1) (Int 1) moves.
Proof.
  intros cond. apply slide_bound. intros j Hj. unfold cond.
  rewrite bishop_down_ends by exact Hj. reflexivity.
Qed.

(** The moves of the spec's examples on the board of a new game: a pawn
    on its home rank has two moves, a knight two, a bishop, a rook, the
    queen and the king none; nobody is in check. *)
Example initial_moves :
  getLegalMoves 0 initialBoard "e2" = Ret ["e3"; "e4"] /\
  getLegalMoves 0 initialBoard "d7" = Ret ["d6"; "d5"] /\
  getLegalMoves 0 initialBoard "g1" = Ret ["h3"; "f3"] /\
  getLegalMoves 0 initialBoard "c1" = Ret [] /\
  getLegalMoves 0 initialBoard "a1" = Ret [] /\
  getLegalMoves 0 initialBoard "d8" = Ret [] /\
  getLegalMoves 0 initialBoard "e1" = Ret [] /\
  getLegalMoves 0 initialBoard "e4" = Ret [] /\
  isColorInCheck 1 initialBoard white = Ret false /\
  isColorInCheck 1 initialBoard black = Ret false.
Proof. repeat split; vm_compute; reflexivity. Qed.

(** ** Which exceptions the board can throw

    The messages for the players ([ErrorMessage]) are thrown by the game
    only; the board throws [TypeError] and [RangeError]. *)

Lemma quiet_Ret {A : Type} (a : A) : quiet (Ret a).
Proof. intros msg; discriminate. Qed.

Lemma quiet_bind {A B : Type} (m : res A) (k : A -> res B) :
  quiet m -> (forall a, quiet (k a)) -> quiet (bind m k).
Proof.
  intros Hm Hk msg. destruct m as [a | e | ]; simpl.
  - apply Hk.
  - intros E. apply (Hm msg). congruence.
  - discriminate.
Qed.

Lemma quiet_BigInt (n : num) : quiet (BigInt n).
Proof. destruct n; intros msg; discriminate. Qed.

Lemma squiet_sret {S A : Type} (a : A) : squiet (@sret S A a).
Proof. intros s msg; discriminate. Qed.

Lemma squiet_get {S : Type} : squiet (@get S).
Proof. intros s msg; discriminate. Qed.

Lemma squiet_modify {S : Type} (f : S -> S) : squiet (modify f).
Proof. intros s msg; discriminate. Qed.

Lemma squiet_lift {S A : Type} (r : res A) : quiet r -> squiet (@lift S A r).
Proof. intros H s. exact H. Qed.

Lemma squiet_sbind {S A B : Type} (m : St S A) (k : A -> St S B) :
  squiet m -> (forall a, squiet (k a)) -> squiet (sbind m k).
Proof.
  intros Hm Hk s msg. unfold sbind.
  specialize (Hm s msg). destruct (m s) as [[a | e | ] s']; simpl in *.
  - apply Hk.
  - intros E. apply Hm. congruence.
  - discriminate.
Qed.

Create HintDb quiet.

#[local] Hint Resolve quiet_Ret quiet_BigInt squiet_sret squiet_get
  squiet_modify : quiet.

(** Splits a computation along its binds, conditionals and matches. *)
Ltac quiet_step :=
  match goal with
  | |- quiet (bind _ _) => apply quiet_bind; [ | intros ]
  | |- squiet (sbind _ _) => apply squiet_sbind; [ | intros ]
  | |- squiet (lift _) => apply squiet_lift
  | |- quiet (if ?c then _ else _) => destruct c
  | |- squiet (if ?c then _ else _) => destruct c
  | |- quiet (match ?x with _ => _ end) => destruct x
  | |- squiet (match ?x with _ => _ end) => destruct x
  | |- quiet (let _ := _ in _) => cbv zeta
  | |- squiet (let _ := _ in _) => cbv zeta
  end.

Ltac quiet_tac := repeat quiet_step; auto with quiet.

Lemma quiet_setPiece (board : Z) (position : num) (t : Z) :
  quiet (setPiece board position t).
Proof. unfold setPiece. quiet_tac. Qed.

Lemma quiet_removePiece (board : Z) (position : num) :
  quiet (removePiece board position).
Proof. unfold removePiece. quiet_tac. Qed.

Lemma quiet_getPieceSymbol (t : Z) (c : Color) : quiet (getPieceSymbol t c).
Proof.
  unfold getPieceSymbol. destruct c; [ apply quiet_Ret | ].
  destruct (symbols t); intros msg; discriminate.
Qed.

#[local] Hint Resolve quiet_setPiece quiet_removePiece quiet_getPieceSymbol
  : quiet.

Lemma quiet_getPieceAt (b : ChessBoard) (position : string) :
  quiet (getPieceAt b position).
Proof. unfold getPieceAt. quiet_tac. Qed.

#[local] Hint Resolve quiet_getPieceAt : quiet.

Lemma quiet_isEmpty (b : ChessBoard) (position : string) :
  quiet (isEmpty b position).
Proof. unfold isEmpty. quiet_tac. Qed.

#[local] Hint Resolve quiet_isEmpty : quiet.

Lemma squiet_capturePiece (position : string) : squiet (capturePiece position).
Proof. unfold capturePiece. quiet_tac. Qed.

#[local] Hint Resolve squiet_capturePiece : quiet.

Lemma squiet_movePiece (from to : string) : squiet (movePiece from to).
Proof. unfold movePiece. quiet_tac. Qed.

Lemma quiet_distribution (b : ChessBoard) (sqs : list string) :
  quiet (distribution b sqs).
Proof. induction sqs as [ | pos rest IH]; simpl; quiet_tac. Qed.

Lemma quiet_sendBoard_loop (b : ChessBoard) (ps : list ChessPlayer) :
  quiet (sendBoard_loop b ps).
Proof.
  induction ps as [ | p rest IH]; simpl; quiet_tac.
  apply quiet_distribution.
Qed.

Lemma squiet_on_board {A : Type} (m : St ChessBoard A) :
  squiet m -> squiet (on_board m).
Proof.
  intros H g msg. unfold on_board.
  specialize (H (board g) msg). destruct (m (board g)); exact H.
Qed.

(** ** Moves that are refused *)

Lemma isEmpty_getPieceAt (b : ChessBoard) (position : string) :
  isEmpty b position = Ret true -> getPieceAt b position = Ret None.
Proof.
  unfold isEmpty. destruct (getPieceAt b position) as [[p | ] | e | ];
    simpl; intros H; try discriminate; reflexivity.
Qed.

(** C10: for every board and every pair of positions, when the source
    square is empty [movePiece] returns false and leaves the white and the
    black piece bit fields (and the rest of the board) as they were. *)
Theorem movePiece_empty_source (b : ChessBoard) (from to : string) :
  isEmpty b from = Ret true ->
  fst (movePiece from to b) = Ret false /\
  whitePieces (snd (movePiece from to b)) = whitePieces b /\
  blackPieces (snd (movePiece from to b)) = blackPieces b /\
  snd (movePiece from to b) = b.
Proof.
  intros H. apply isEmpty_getPieceAt in H.
  unfold movePiece, sbind, get, lift. rewrite H. simpl. auto.
Qed.

Lemma movePiece_empty_source_witness :
  isEmpty initialBoard "e4" = Ret true /\
  fst (movePiece "e4" "e5" initialBoard) = Ret false /\
  whitePieces (snd (movePiece "e4" "e5" initialBoard))
  = whitePieces initialBoard /\
  blackPieces (snd (movePiece "e4" "e5" initialBoard))
  = blackPieces initialBoard /\
  snd (movePiece "e4" "e5" initialBoard) = initialBoard.
Proof.
  split.
  - reflexivity.
  - apply (movePiece_empty_source initialBoard "e4" "e5"). reflexivity.
Defined.

(** The part of [move] after the checks: the board moves the piece, the
    history grows, the boards are sent and the turn is passed on.  It
    throws no message for the player. *)
Lemma squiet_sendBoard : squiet sendBoard.
Proof.
  unfold sendBoard. quiet_tac. apply quiet_sendBoard_loop.
Qed.

(** X24: a submission that ends with a message thrown to the player (the
    destination is not a legal move of the piece, the piece is not the
    player's, the destination holds a piece of the player) leaves the
    game as it was: board, turn, history and status.  All the messages
    are thrown before the board moves the piece. *)
Theorem move_rejected_unchanged (fuel : nat) (player : ChessPlayer)
    (from to : string) (g g' : ChessGame) (msg : string) :
  move fuel player from to g = (Throw (ErrorMessage msg), g') ->
  g' = g.
Proof.
  unfold move. cbv zeta. unfold sbind at 1. unfold get at 1.
  unfold sbind at 1. unfold lift at 1.
  destruct (getLegalMoves fuel (board g) _) as [legal | e | ];
    [ | intros H; inversion H; reflexivity | discriminate ].
  destruct (negb (includes legal _)).
  { unfold throw, lift. intros H; inversion H; reflexivity. }
  unfold sbind at 1. unfold lift at 1.
  destruct (getPieceAt (board g) _) as [fromPiece | e | ];
    [ | intros H; inversion H; reflexivity | discriminate ].
  unfold sbind at 1. unfold lift at 1.
  destruct (getPieceAt (board g) _) as [toPiece | e | ];
    [ | intros H; inversion H; reflexivity | discriminate ].
  destruct fromPiece as [fromPiece | ];
    [ | unfold throw, lift; intros H; inversion H; reflexivity ].
  destruct (negb (Color_eqb (color fromPiece) (side player))).
  { unfold throw, lift. intros H; inversion H; reflexivity. }
  match goal with |- (if ?c then _ else _) _ = _ -> _ => destruct c end.
  { unfold throw, lift. intros H; inversion H; reflexivity. }
  intros H. exfalso.
  match type of H with
  | ?m g = _ =>
      assert (Q : squiet m);
      [ | apply (Q g msg); rewrite H; reflexivity ]
  end.
  apply squiet_sbind; [ apply squiet_on_board, squiet_movePiece | intros moved ].
  destruct moved; [ | apply squiet_sret ].
  apply squiet_sbind; [ apply squiet_modify | intros _ ].
  apply squiet_sbind; [ apply squiet_sendBoard | intros _ ].
  apply squiet_sbind; [ apply squiet_get | intros g1 ].
  destruct (dict_get _ _); [ apply squiet_modify | ].
  apply squiet_lift. intros m; discriminate.
Qed.

Lemma move_rejected_unchanged_witness :
  move 0 whitePlayer "e2" "e5" initialGame
  = (Throw (ErrorMessage "Invalid move from e2 to e5."), initialGame) /\
  initialGame = initialGame.
Proof.
  assert (H : move 0 whitePlayer "e2" "e5" initialGame
              = (Throw (ErrorMessage "Invalid move from e2 to e5."),
                 initialGame)) by reflexivity.
  split; [ exact H | ].
  exact (move_rejected_unchanged 0 whitePlayer "e2" "e5" initialGame
           initialGame _ H).
Defined.

(** ** Recursion depth

    A call that returns or throws within some depth does the same within
    every larger depth: [OutOfFuel] is the only outcome that depends on
    the depth. *)

Lemma bind_OutOfFuel {A B : Type} (m : res A) (k : A -> res B) :
  bind m k <> OutOfFuel -> m <> OutOfFuel.
Proof. destruct m; simpl; congruence. Qed.

Section Refinement.
Variables attacked1 attacked2 : string -> Color -> res bool.
Hypothesis Href : refines attacked1 attacked2.

Lemma king_loop_refines (b : ChessBoard) (c : Color) (cands : list Coord) :
  forall moves,
    king_loop attacked1 b c cands moves <> OutOfFuel ->
    king_loop attacked2 b c cands moves = king_loop attacked1 b c cands moves.
Proof.
  induction cands as [ | move rest IH]; intros moves H; simpl in *.
  - reflexivity.
  - destruct (in_bounds move); [ | apply IH; exact H ].
    destruct (isEmpty b _) as [e | x | ]; simpl in *; try reflexivity.
    destruct (if e then Ret true else isEnemy b _ c) as [free | x | ];
      simpl in *; try reflexivity.
    destruct free; simpl in *; [ | apply IH; exact H ].
    destruct (attacked1 _ c) as [chk | x | ] eqn:E1.
    + rewrite (Href _ c) by congruence. rewrite E1. simpl in *.
      apply IH; exact H.
    + rewrite (Href _ c) by congruence. rewrite E1. reflexivity.
    + simpl in H. congruence.
Qed.

Lemma getLegalMoves_with_refines (b : ChessBoard) (position : string) :
  getLegalMoves_with attacked1 b position <> OutOfFuel ->
  getLegalMoves_with attacked2 b position = getLegalMoves_with attacked1 b position.
Proof.
  unfold getLegalMoves_with.
  destruct (negb _ && negb _); [ reflexivity | ].
  destruct (getPieceAt b position) as [[p | ] | x | ]; cbn [bind];
    [ | reflexivity | reflexivity | reflexivity ].
  do 5 match goal with
       | |- (if ?c then _ else _) <> _ -> (if ?c then _ else _) = _ =>
           destruct c; [ reflexivity | ]
       end.
  destruct (_ || _); [ | reflexivity ].
  apply king_loop_refines.
Qed.

Lemma check_scan_refines (b : ChessBoard) (c : Color) (kingPosition : string)
    (sqs : list string) :
  check_scan (getLegalMoves_with attacked1 b) b c kingPosition sqs <> OutOfFuel ->
  check_scan (getLegalMoves_with attacked2 b) b c kingPosition sqs
  = check_scan (getLegalMoves_with attacked1 b) b c kingPosition sqs.
Proof.
  induction sqs as [ | pos rest IH]; simpl; intros H.
  - reflexivity.
  - destruct (isOccupiedBy b pos c); [ | apply IH; exact H ].
    pose proof (getLegalMoves_with_refines b pos) as L.
    destruct (getLegalMoves_with attacked1 b pos) as [lm | x | ];
      simpl in *.
    + rewrite L by congruence. simpl.
      destruct (includes lm kingPosition); [ reflexivity | apply IH, H ].
    + rewrite L by congruence. reflexivity.
    + congruence.
Qed.
End Refinement.

Lemma isKingInCheck_S (b : ChessBoard) (n : nat) :
  refines (isKingInCheck n b) (isKingInCheck (S n) b).
Proof.
  induction n as [ | n IH]; intros kp c H.
  - simpl in H. congruence.
  - change (isKingInCheck (S (S n)) b kp c)
      with (check_scan (getLegalMoves_with (isKingInCheck (S n) b) b) b
              (opponent c) kp allSquares).
    change (isKingInCheck (S n) b kp c)
      with (check_scan (getLegalMoves_with (isKingInCheck n b) b) b
              (opponent c) kp allSquares) in *.
    apply check_scan_refines; assumption.
Qed.

Lemma isKingInCheck_mono (b : ChessBoard) (n m : nat) :
  (n <= m)%nat -> refines (isKingInCheck n b) (isKingInCheck m b).
Proof.
  induction 1 as [ | m Hle IH]; intros kp c H.
  - reflexivity.
  - rewrite <- (IH kp c H). apply isKingInCheck_S. rewrite (IH kp c H). exact H.
Qed.

Lemma getLegalMoves_mono (b : ChessBoard) (n m : nat) (position : string) :
  (n <= m)%nat ->
  getLegalMoves n b position <> OutOfFuel ->
  getLegalMoves m b position = getLegalMoves n b position.
Proof.
  intros Hle. apply getLegalMoves_with_refines.
  apply isKingInCheck_mono, Hle.
Qed.

(** ** The two kings call each other *)

Lemma game_after_e4_e5 :
  game_after 0 [W "e2" "e4"; B "e7" "e5"] = Ret game_e4_e5.
Proof. vm_compute. reflexivity. Qed.

Section KingsCallEachOther.
Variable attacked : string -> Color -> res bool.

(** Looking for an attack on e2 or on e1 the scan of the black pieces
    reaches the king on e8, which asks whether e7 is attacked. *)
Lemma scan_for_e2_asks_e7 :
  attacked "e7" black = OutOfFuel ->
  check_scan (getLegalMoves_with attacked (board game_e4_e5))
    (board game_e4_e5) black "e2" allSquares
  = OutOfFuel.
Proof. intros H. vm_compute. rewrite H. reflexivity. Qed.

Lemma scan_for_e1_asks_e7 :
  attacked "e7" black = OutOfFuel ->
  check_scan (getLegalMoves_with attacked (board game_e4_e5))
    (board game_e4_e5) black "e1" allSquares
  = OutOfFuel.
Proof. intros H. vm_compute. rewrite H. reflexivity. Qed.

(** Looking for an attack on e7 the scan of the white pieces reaches the
    king on e1, which asks whether e2 is attacked. *)
Lemma scan_for_e7_asks_e2 :
  attacked "e2" white = OutOfFuel ->
  check_scan (getLegalMoves_with attacked (board game_e4_e5))
    (board game_e4_e5) white "e7" allSquares
  = OutOfFuel.
Proof. intros H. vm_compute. rewrite H. reflexivity. Qed.

Lemma king_e1_asks_e2 :
  attacked "e2" white = OutOfFuel ->
  getLegalMoves_with attacked (board game_e4_e5) "e1" = OutOfFuel.
Proof. intros H. vm_compute. rewrite H. reflexivity. Qed.
End KingsCallEachOther.

Lemma e2_e7_never_answer (fuel : nat) :
  isKingInCheck fuel (board game_e4_e5) "e2" white = OutOfFuel /\
  isKingInCheck fuel (board game_e4_e5) "e7" black = OutOfFuel.
Proof.
  induction fuel as [ | fuel [IH2 IH7]].
  - split; reflexivity.
  - split.
    + apply (scan_for_e2_asks_e7 (isKingInCheck fuel (board game_e4_e5)) IH7).
    + apply (scan_for_e7_asks_e2 (isKingInCheck fuel (board game_e4_e5)) IH2).
Qed.

(** C2: after 1. e2-e4 e7-e5 the question whether the white king on e1 is
    attacked gets no answer within any recursion depth: the scan asks for
    the moves of the black king, which asks whether e7 is attacked, which
    asks for the moves of the white king, which asks whether e2 is
    attacked, which asks for the moves of the black king again.  The same
    holds for the legal moves of the king on e1 and for a submitted move
    of that king. *)
Theorem isKingInCheck_never_returns :
  exists g,
    game_after 0 [W "e2" "e4"; B "e7" "e5"] = Ret g /\
    forall fuel,
      isKingInCheck fuel (board g) "e1" white = OutOfFuel /\
      isColorInCheck fuel (board g) white = OutOfFuel /\
      getLegalMoves fuel (board g) "e1" = OutOfFuel /\
      move fuel whitePlayer "e1" "e2" g = (OutOfFuel, g).
Proof.
  exists game_e4_e5. split; [ exact game_after_e4_e5 | ].
  intros fuel.
  assert (H1 : isKingInCheck fuel (board game_e4_e5) "e1" white = OutOfFuel).
  { destruct fuel as [ | fuel]; [ reflexivity | ].
    apply (scan_for_e1_asks_e7 (isKingInCheck fuel (board game_e4_e5))).
    apply e2_e7_never_answer. }
  assert (H2 : getLegalMoves fuel (board game_e4_e5) "e1" = OutOfFuel).
  { apply king_e1_asks_e2, e2_e7_never_answer. }
  repeat split.
  - exact H1.
  - change (isColorInCheck fuel (board game_e4_e5) white)
      with (bind (find_king (board game_e4_e5) white allSquares)
              (fun k => match k with
                        | None => Ret false
                        | Some k => isKingInCheck fuel (board game_e4_e5) k white
                        end)).
    replace (find_king (board game_e4_e5) white allSquares)
      with (Ret (Some "e1")) by (vm_compute; reflexivity).
    exact H1.
  - exact H2.
  - unfold move. cbv zeta. unfold sbind at 1. unfold get at 1.
    unfold sbind at 1. unfold lift at 1.
    change (coordinatesToPosition (positionToCoordinates "e1")) with "e1".
    rewrite H2. reflexivity.
Qed.

(** ** Captures *)

(** C3: after 1. e2-e4 d7-d5 2. e4xd5, three accepted moves, the square d5
    (index 35) is occupied in the white and in the black bit field:
    [movePiece] puts the capturing pawn on d5 and nothing removes the
    captured one ([capturePiece] is called for en passant captures
    only). *)
Theorem capture_leaves_two_pieces :
  exists g,
    game_after 0 [W "e2" "e4"; B "d7" "d5"; W "e4" "d5"] = Ret g /\
    history g = ["e2 e4"; "d7 d5"; "e4 d5"] /\
    isOccupiedBy (board g) "d5" white = true /\
    isOccupiedBy (board g) "d5" black = true /\
    Z.testbit (whitePieces (board g)) 35 = true /\
    Z.testbit (blackPieces (board g)) 35 = true.
Proof.
  eexists. split; [ vm_compute; reflexivity | ].
  repeat split; vm_compute; reflexivity.
Qed.

(** ** En passant *)

(** C5: in the game 1. e2-e4 a7-a6 2. e4-e5 d7-d5 the double advance of the
    black pawn is recorded in [pawnsEnPassantBlack], but the pawn on d5
    keeps the type [Pawn] in the bit field of the black pieces, where
    [getPawnMoves] looks for [PawnEnPassant]: the white pawn on e5 has the
    one move e6, and the capture e5xd6 is refused.  ([movePiece], called
    directly, would take the pawn on d5 away.)  And the record of a double
    advance outlives the moves of other pieces: after 1. e2-e4 Nb8-c6
    2. Ng1-f3 Nc6-b8 [pawnsEnPassantWhite] is what it was after 1. e2-e4. *)
Theorem en_passant_never_offered :
  (exists g,
     game_after 0 [W "e2" "e4"; B "a7" "a6"; W "e4" "e5"; B "d7" "d5"] = Ret g /\
     pawnsEnPassantBlack (board g) <> 0 /\
     getPieceAt (board g) "d5"
     = Ret (Some (mkPiece black PieceType.Pawn "d5" (Some "p"))) /\
     getLegalMoves 0 (board g) "e5" = Ret ["e6"] /\
     move 0 whitePlayer "e5" "d6" g
     = (Throw (ErrorMessage "Invalid move from e5 to d6."), g) /\
     (exists b', movePiece "e5" "d6" (board g) = (Ret true, b') /\
                 isEmpty b' "d5" = Ret true /\
                 isOccupiedBy b' "d6" white = true)) /\
  (exists g1 g2,
     game_after 0 [W "e2" "e4"] = Ret g1 /\
     game_after 0 [W "e2" "e4"; B "b8" "c6"; W "g1" "f3"; B "c6" "b8"]
     = Ret g2 /\
     pawnsEnPassantWhite (board g1) <> 0 /\
     pawnsEnPassantWhite (board g2) = pawnsEnPassantWhite (board g1)).
Proof.
  split.
  - eexists. split; [ vm_compute; reflexivity | ].
    split; [ vm_compute; discriminate | ].
    split; [ vm_compute; reflexivity | ].
    split; [ vm_compute; reflexivity | ].
    split; [ vm_compute; reflexivity | ].
    eexists. split; [ vm_compute; reflexivity | ].
    split; vm_compute; reflexivity.
  - eexists. eexists. split; [ vm_compute; reflexivity | ].
    split; [ vm_compute; reflexivity | ].
    split; [ vm_compute; discriminate | vm_compute; reflexivity ].
Qed.

(** ** Whose turn it is *)

(** C7: the game never compares the player with [turn].  At the start of
    the game, when [turn] names the white player, the black player's
    e7-e5 is accepted; and after 1. e2-e4, when [turn] is black, the white
    player's d2-d4 is accepted.  The message about the turn is thrown
    when the piece on the source square is not the player's. *)
Theorem move_out_of_turn_accepted :
  (turn initialGame = player_id whitePlayer /\
   exists g,
     move 0 blackPlayer "e7" "e5" initialGame = (Ret tt, g) /\
     history g = ["e7 e5"] /\
     isOccupiedBy (board g) "e5" black = true) /\
  (exists g1 g2,
     move 0 whitePlayer "e2" "e4" initialGame = (Ret tt, g1) /\
     turn g1 = "black" /\
     move 0 whitePlayer "d2" "d4" g1 = (Ret tt, g2) /\
     history g2 = ["e2 e4"; "d2 d4"] /\
     isOccupiedBy (board g2) "d4" white = true) /\
  move 0 blackPlayer "e2" "e4" initialGame
  = (Throw (ErrorMessage "It's not your turn to move."), initialGame).
Proof.
  split; [ split; [ reflexivity | ] | split ].
  - eexists. split; [ vm_compute; reflexivity | ].
    split; vm_compute; reflexivity.
  - eexists. eexists. split; [ vm_compute; reflexivity | ].
    split; [ vm_compute; reflexivity | ].
    split; [ vm_compute; reflexivity | ].
    split; vm_compute; reflexivity.
  - vm_compute. reflexivity.
Qed.

(** C8: a submission out of turn changes the game.  At the start of the
    game, when [turn] names the white player, the black player's e7-e5
    is not refused: the pawn leaves e7 for e5, the history gets an entry
    and [turn] changes.  A submission can also fail after the board has
    changed: with a black pawn on a1 the submission a1-a0 passes the
    checks, the pawn leaves a1, the history gets its entry, and the
    rendering of the board throws a [TypeError]. *)
Theorem failed_move_changes_game :
  (turn initialGame = player_id whitePlayer /\
   history initialGame = [] /\
   isOccupiedBy (board initialGame) "e7" black = true /\
   isOccupiedBy (board initialGame) "e5" black = false /\
   exists g,
     move 0 blackPlayer "e7" "e5" initialGame = (Ret tt, g) /\
     isOccupiedBy (board g) "e7" black = false /\
     isOccupiedBy (board g) "e5" black = true /\
     board g <> board initialGame /\
     history g = ["e7 e5"] /\
     turn g = "white" /\
     turn g <> turn initialGame) /\
  (exists g g',
     game_after 0 pawn_to_a1 = Ret g /\
     getPieceAt (board g) "a1"
     = Ret (Some (mkPiece black PieceType.Pawn "a1" (Some "p"))) /\
     move 0 blackPlayer "a1" "a0" g = (Throw TypeError, g') /\
     isOccupiedBy (board g') "a1" black = false /\
     board g' <> board g /\
     history g' = history g ++ ["a1 a0"]).
Proof.
  split.
  - split; [ reflexivity | ].
    split; [ reflexivity | ].
    split; [ reflexivity | ].
    split; [ reflexivity | ].
    eexists. split; [ vm_compute; reflexivity | ].
    split; [ vm_compute; reflexivity | ].
    split; [ vm_compute; reflexivity | ].
    split; [ vm_compute; discriminate | ].
    split; [ vm_compute; reflexivity | ].
    split; [ vm_compute; reflexivity | ].
    vm_compute; discriminate.
  - eexists. eexists.
    split; [ vm_compute; reflexivity | ].
    split; [ vm_compute; reflexivity | ].
    split; [ vm_compute; reflexivity | ].
    split; [ vm_compute; reflexivity | ].
    split; [ vm_compute; discriminate | ].
    vm_compute; reflexivity.
Qed.

(** ** The status of the game *)

Lemma keeps_sret {A : Type} (a : A) : keeps_state (sret a).
Proof. intros g; reflexivity. Qed.

Lemma keeps_lift {A : Type} (r : res A) : keeps_state (lift r).
Proof. intros g; reflexivity. Qed.

Lemma keeps_get : keeps_state get.
Proof. intros g; reflexivity. Qed.

Lemma keeps_modify (f : ChessGame -> ChessGame) :
  (forall g, state (f g) = state g) -> keeps_state (modify f).
Proof. intros H g; apply H. Qed.

Lemma keeps_on_board {A : Type} (m : St ChessBoard A) :
  keeps_state (on_board m).
Proof. intros g. unfold on_board. destruct (m (board g)); reflexivity. Qed.

Lemma keeps_sbind {A B : Type} (m : St ChessGame A) (k : A -> St ChessGame B) :
  keeps_state m -> (forall a, keeps_state (k a)) -> keeps_state (sbind m k).
Proof.
  intros Hm Hk g. unfold sbind. specialize (Hm g).
  destruct (m g) as [[a | e | ] g1]; simpl in *; try exact Hm.
  rewrite Hk. exact Hm.
Qed.

Ltac keeps_step :=
  match goal with
  | |- keeps_state (sbind _ _) => apply keeps_sbind; [ | intros ]
  | |- keeps_state (lift _) => apply keeps_lift
  | |- keeps_state (throw _) => apply keeps_lift
  | |- keeps_state (sret _) => apply keeps_sret
  | |- keeps_state get => apply keeps_get
  | |- keeps_state (on_board _) => apply keeps_on_board
  | |- keeps_state sendBoard => unfold sendBoard
  | |- keeps_state (modify _) => apply keeps_modify; intros; reflexivity
  | |- keeps_state (if ?c then _ else _) => destruct c
  | |- keeps_state (match ?x with _ => _ end) => destruct x
  end.

Lemma move_keeps_state (fuel : nat) (player : ChessPlayer) (from to : string) :
  keeps_state (move fuel player from to).
Proof. unfold move. cbv zeta. repeat keeps_step. Qed.

Lemma submit_keeps_state (fuel : nat)
    (ms : list (ChessPlayer * string * string)) :
  keeps_state (submit fuel ms).
Proof.
  induction ms as [ | [[p from] to] rest IH]; simpl.
  - apply keeps_sret.
  - apply keeps_sbind; [ apply move_keeps_state | intros; exact IH ].
Qed.

(** C4, as the claim states it, fails: after the four accepted moves
    f2-f3, e7-e5, g2-g4, d8-h4 the status of the game is [Active], not
    [Checkmate], and the white pieces have legal moves (the pawn on a2
    has two). *)
Lemma fools_mate_status_active :
  exists g,
    game_after 0 fools_mate = Ret g /\
    state g = GameState.Active /\
    state g <> GameState.Checkmate /\
    isColorInCheck 1 (board g) white = Ret true /\
    getLegalMoves 1 (board g) "a2" = Ret ["a3"; "a4"].
Proof.
  eexists. split; [ vm_compute; reflexivity | ].
  split; [ vm_compute; reflexivity | ].
  split; [ vm_compute; discriminate | ].
  split; vm_compute; reflexivity.
Qed.

(** C4, amended: a submitted move never changes the status of the game,
    whatever its outcome.  After the sequence f2-f3, e7-e5, g2-g4, d8-h4
    the status is the [Active] of the start of the game; on the board the
    white king is in check and has no legal move, which is what
    [isCheckmate] tests, and which nothing in the game asks for.  White
    does not have zero legal moves across its pieces: the pawn on a2 has
    the moves a3 and a4, which do not end the check, and the next
    submission a2-a3 is accepted. *)
Theorem move_never_changes_status :
  (forall fuel player from to g,
     state (snd (move fuel player from to g)) = state g) /\
  exists g,
    game_after 0 fools_mate = Ret g /\
    state g = GameState.Active /\
    isColorInCheck 1 (board g) white = Ret true /\
    getLegalMoves 1 (board g) "e1" = Ret [] /\
    isCheckmate 1 (board g) "e1" white = Ret true /\
    getPieceAt (board g) "a2"
    = Ret (Some (mkPiece white PieceType.Pawn "a2" (Some "P"))) /\
    getLegalMoves 1 (board g) "a2" = Ret ["a3"; "a4"] /\
    exists g',
      move 1 whitePlayer "a2" "a3" g = (Ret tt, g') /\
      state g' = GameState.Active /\
      isColorInCheck 1 (board g') white = Ret true.
Proof.
  split.
  - intros fuel player from to g. apply move_keeps_state.
  - eexists. split; [ vm_compute; reflexivity | ].
    split; [ vm_compute; reflexivity | ].
    split; [ vm_compute; reflexivity | ].
    split; [ vm_compute; reflexivity | ].
    split; [ vm_compute; reflexivity | ].
    split; [ vm_compute; reflexivity | ].
    split; [ vm_compute; reflexivity | ].
    eexists. split; [ vm_compute; reflexivity | ].
    split; vm_compute; reflexivity.
Qed.

(** ** Castling *)

Lemma all_empty_true (b : ChessBoard) (r : num) (cols : list Z) :
  all_empty b r cols = Ret true <->
  Forall (fun i => isEmpty b (coordinatesToPosition (mkCoord r (Int i)))
                   = Ret true) cols.
Proof.
  induction cols as [ | i rest IH]; simpl.
  - split; [ constructor | reflexivity ].
  - split.
    + intros H.
      destruct (isEmpty b _) as [[ | ] | e | ] eqn:E; simpl in H;
        try discriminate.
      constructor; [ exact E | apply IH, H ].
    + intros H. inversion H as [ | ? ? E F]; subst.
      rewrite E. simpl. apply IH, F.
Qed.

(** C6, as the claim states it, fails: white may castle on the king's
    side although f1, the square the king passes through, is attacked:
    the black bishop on a6 has f1 among its legal moves. *)
Lemma castle_through_attacked_square :
  exists g,
    game_after 0 castle_moves = Ret g /\
    canCastle 1 (board g) white king = Ret true /\
    isKingInCheck 1 (board g) "f1" white = Ret true /\
    getPieceAt (board g) "a6"
    = Ret (Some (mkPiece black PieceType.Bishop "a6" (Some "b"))) /\
    getLegalMoves 0 (board g) "a6"
    = Ret ["b7"; "c8"; "b5"; "c4"; "d3"; "e2"; "f1"].
Proof.
  eexists. split; [ vm_compute; reflexivity | ].
  split; [ vm_compute; reflexivity | ].
  split; [ vm_compute; reflexivity | ].
  split; vm_compute; reflexivity.
Qed.

(** The test on the types of the two pieces does not tell whether they
    have moved: after 1. g2-g3 a7-a6 2. Bf1-g2 a6-a5 3. Ng1-f3 a5-a4
    4. Ke1-f1 h7-h6 5. Kf1-e1 h6-h5 the white king is back on e1 and
    [canCastle] is true. *)
Remark castle_after_king_moved :
  exists g,
    game_after 1 [W "g2" "g3"; B "a7" "a6"; W "f1" "g2"; B "a6" "a5";
                  W "g1" "f3"; B "a5" "a4"; W "e1" "f1"; B "h7" "h6";
                  W "f1" "e1"; B "h6" "h5"] = Ret g /\
    canCastle 1 (board g) white king = Ret true.
Proof.
  eexists. split; [ vm_compute; reflexivity | vm_compute; reflexivity ].
Qed.

Lemma includes_In (l : list string) (s : string) :
  includes l s = true <-> In s l.
Proof.
  unfold includes. rewrite existsb_exists. split.
  - intros (x & Hx & E). apply String.eqb_eq in E. subst. exact Hx.
  - intros H. exists s. split; [ exact H | apply String.eqb_refl ].
Qed.

(** The scan of [isKingInCheck] answers false exactly when the legal
    moves of every piece of the scanned color are returned and none of
    them is the square asked for. *)
Lemma check_scan_false (legal : string -> res (list string))
    (b : ChessBoard) (oc : Color) (d : string) (sqs : list string) :
  check_scan legal b oc d sqs = Ret false <->
  forall q, In q sqs -> isOccupiedBy b q oc = true ->
    exists moves, legal q = Ret moves /\ ~ In d moves.
Proof.
  induction sqs as [ | pos rest IH]; simpl.
  - split; [ intros _ q [] | reflexivity ].
  - destruct (isOccupiedBy b pos oc) eqn:O.
    + destruct (legal pos) as [moves | e | ] eqn:L; simpl.
      * destruct (includes moves d) eqn:I.
        -- split; [ discriminate | ].
           intros H. destruct (H pos (or_introl eq_refl) O) as (m & E & N).
           rewrite L in E. injection E as <-.
           exfalso. apply N. apply includes_In. exact I.
        -- rewrite IH. split.
           ++ intros H q [<- | Hq] Oq.
              ** exists moves. split; [ exact L | ].
                 intros Hin. apply includes_In in Hin. congruence.
              ** exact (H q Hq Oq).
           ++ intros H q Hq Oq. exact (H q (or_intror Hq) Oq).
      * split; [ discriminate | ].
        intros H. destruct (H pos (or_introl eq_refl) O) as (m & E & _).
        rewrite L in E. discriminate.
      * split; [ discriminate | ].
        intros H. destruct (H pos (or_introl eq_refl) O) as (m & E & _).
        rewrite L in E. discriminate.
    + rewrite IH. split.
      * intros H q [<- | Hq] Oq; [ congruence | exact (H q Hq Oq) ].
      * intros H q Hq Oq. exact (H q (or_intror Hq) Oq).
Qed.

Lemma isKingInCheck_false (fuel : nat) (b : ChessBoard) (d : string)
    (c : Color) :
  isKingInCheck (S fuel) b d c = Ret false <-> out_of_reach fuel b c d.
Proof. apply check_scan_false. Qed.

(** C6, amended: [canCastle(color, side)] returns true if and only if the
    home square of the king holds a piece of type [King] and the corner
    of that side a piece of type [Rook], every square strictly between
    them is empty, and for every piece of the opponent [getLegalMoves]
    returns a list of moves that contains neither the king's square nor
    the square the king castles to.  The square the king passes through
    is not examined.  The depth [S fuel] of the call is the depth [fuel]
    of the legal moves it asks for; at depth 0 nothing is returned. *)
Theorem canCastle_true_iff (fuel : nat) (b : ChessBoard) (c : Color)
    (s : Side) :
  canCastle 0 b c s <> Ret true /\
  (canCastle (S fuel) b c s = Ret true <->
   (exists kingPiece rookPiece,
      getPieceAt b (kingPos c) = Ret (Some kingPiece) /\
      getPieceAt b (rookPos c s) = Ret (Some rookPiece) /\
      type kingPiece = PieceType.King /\
      type rookPiece = PieceType.Rook) /\
   Forall (fun i => isEmpty b (coordinatesToPosition (mkCoord (homeRow c) (Int i)))
                    = Ret true) (between s) /\
   out_of_reach fuel b c (kingPos c) /\
   out_of_reach fuel b c (newKingPos c s)).
Proof.
  split.
  - unfold canCastle. cbv zeta.
    destruct (getPieceAt b (kingPos c)) as [[kp | ] | e | ]; simpl;
      try discriminate;
      destruct (getPieceAt b (rookPos c s)) as [[rp | ] | e | ]; simpl;
      try discriminate.
    destruct (negb _ || negb _); [ discriminate | ].
    destruct (all_empty b (homeRow c) (between s)) as [[ | ] | e | ];
      simpl; discriminate.
  - rewrite <- !isKingInCheck_false.
    generalize (S fuel); intros n.
    unfold canCastle. cbv zeta. rewrite <- all_empty_true. split.
    + intros H.
      destruct (getPieceAt b (kingPos c)) as [[kp | ] | e | ]; simpl in H;
        try discriminate.
      * destruct (getPieceAt b (rookPos c s)) as [[rp | ] | e | ]; simpl in H;
          try discriminate.
        destruct (Z.eqb_spec (type kp) PieceType.King) as [Ek | Ek];
          simpl in H; try discriminate.
        destruct (Z.eqb_spec (type rp) PieceType.Rook) as [Er | Er];
          simpl in H; try discriminate.
        destruct (all_empty b (homeRow c) (between s)) as [[ | ] | e | ];
          simpl in H; try discriminate.
        destruct (isKingInCheck n b (kingPos c) c) as [[ | ] | e | ];
          simpl in H; try discriminate.
        destruct (isKingInCheck n b (newKingPos c s) c) as [[ | ] | e | ];
          simpl in H; try discriminate.
        split; [ exists kp, rp | ]; auto.
      * destruct (getPieceAt b (rookPos c s)) as [[rp | ] | e | ]; simpl in H;
          discriminate.
    + intros [(kp & rp & Hk & Hr & Ek & Er) (Hfree & H1 & H2)].
      rewrite Hk, Hr. simpl. rewrite Ek, Er. simpl.
      rewrite Hfree. simpl. rewrite H1. simpl. rewrite H2. reflexivity.
Qed.

(** ** Legal moves and the mover's own king *)








(** * Further properties of the board and of the game *)

(** ** More on positions and coordinates *)

Lemma in_bounds_cases (c : Coord) :
  in_bounds c = true ->
  exists r k, c = mkCoord (Int r) (Int k) /\ In r range8 /\ In k range8.
Proof.
  destruct c as [[r | ] [k | ]]; unfold in_bounds; simpl;
    try discriminate; try (rewrite ?andb_false_r; discriminate).
  intros H. exists r, k. split; [ reflexivity | ].
  apply andb_true_iff in H. destruct H as [H H4].
  apply andb_true_iff in H. destruct H as [H H3].
  apply andb_true_iff in H. destruct H as [H1 H2].
  apply Z.ltb_lt in H2, H4. unfold Z.geb in H1, H3.
  destruct (Z.compare_spec r 0); try discriminate;
    destruct (Z.compare_spec k 0); try discriminate;
    split; unfold range8; simpl; lia.
Qed.

(** X1: for coordinates on the board (row and column between 0 and 7)
    the position string converts back to the same coordinates, and it is
    a valid position. *)
Theorem coordinates_roundtrip (c : Coord) :
  in_bounds c = true ->
  positionToCoordinates (coordinatesToPosition c) = c /\
  valid_position (coordinatesToPosition c).
Proof.
  intros H. destruct (in_bounds_cases c H) as (r & k & -> & Hr & Hk).
  unfold range8 in Hr, Hk. simpl in Hr, Hk.
  repeat (destruct Hr as [<- | Hr]; [ | ]); try contradiction;
    repeat (destruct Hk as [<- | Hk]; [ | ]); try contradiction;
    (split; [ reflexivity | ]);
    eexists; eexists; (split; [ | split; [ | reflexivity ] ]);
    simpl; tauto.
Qed.

Lemma valid_position_index (s : string) :
  valid_position s ->
  (exists i, index_of s = Int i /\ 0 <= i < 64) /\
  position_of_index (index_of s) = s.
Proof.
  intros (f & r & Hf & Hr & ->).
  unfold files in Hf; unfold ranks in Hr; simpl in Hf, Hr.
  repeat (destruct Hf as [<- | Hf]; [ | ]); try contradiction;
    repeat (destruct Hr as [<- | Hr]; [ | ]); try contradiction;
    (split; [ eexists; split; [ vm_compute; reflexivity | lia ] | reflexivity ]).
Qed.

(** X2: the index of a valid position lies between 0 and 63, and two
    valid positions with the same index are the same position. *)
Theorem index_injective (s1 s2 : string) :
  valid_position s1 -> valid_position s2 ->
  (exists i, coordinatesToIndex (positionToCoordinates s1) = Int i /\
             0 <= i < 64) /\
  (coordinatesToIndex (positionToCoordinates s1)
   = coordinatesToIndex (positionToCoordinates s2) -> s1 = s2).
Proof.
  intros H1 H2.
  destruct (valid_position_index s1 H1) as [R1 I1].
  destruct (valid_position_index s2 H2) as [_ I2].
  split; [ exact R1 | ].
  intros E. rewrite <- I1, <- I2. unfold index_of. rewrite E. reflexivity.
Qed.

Lemma indexOf_letters_range (c : option ascii) :
  -1 <= indexOf letters c < 8.
Proof.
  destruct c as [c | ]; [ | simpl; lia ].
  unfold indexOf, letters. cbn [indexOf_from].
  repeat match goal with
         | |- context [if Ascii.eqb ?x c then _ else _] =>
             destruct (Ascii.eqb x c)
         end;
    lia.
Qed.

Lemma parseInt_range (c : option ascii) :
  parseInt c = NaN \/ exists d, parseInt c = Int d /\ 0 <= d <= 9.
Proof.
  destruct c as [[[ | ] [ | ] [ | ] [ | ] [ | ] [ | ] [ | ] [ | ]] | ];
    simpl; try (left; reflexivity);
    right; eexists; (split; [ reflexivity | lia ]).
Qed.

(** X3: [positionToCoordinates] accepts every string: the column is an
    integer between -1 and 7 (-1 when the first character is not a letter
    a..h), the row is [NaN] (when the second character is not a digit) or
    an integer between -1 and 8. *)
Theorem positionToCoordinates_range (s : string) :
  (exists k, col (positionToCoordinates s) = Int k /\ -1 <= k <= 7) /\
  (row (positionToCoordinates s) = NaN \/
   exists r, row (positionToCoordinates s) = Int r /\ -1 <= r <= 8).
Proof.
  unfold positionToCoordinates. cbn [row col]. split.
  - eexists. split; [ reflexivity | ].
    pose proof (indexOf_letters_range (String.get 0 s)). lia.
  - destruct (parseInt_range (String.get 1 s)) as [-> | (d & -> & Hd)].
    + left; reflexivity.
    + right. exists (d - 1). split; [ reflexivity | lia ].
Qed.

(** ** Submissions that are accepted and submissions that are not *)

Lemma Color_eqb_eq (a b : Color) : Color_eqb a b = true <-> a = b.
Proof. destruct a, b; simpl; split; congruence. Qed.

Lemma sbind_Ret_inv {S A B : Type} (m : St S A) (k : A -> St S B) (s s2 : S)
    (r : B) :
  sbind m k s = (Ret r, s2) ->
  exists a s1, m s = (Ret a, s1) /\ k a s1 = (Ret r, s2).
Proof.
  unfold sbind. destruct (m s) as [[a | e | ] s1]; try discriminate.
  intros H. exists a, s1. split; [ reflexivity | exact H ].
Qed.

(** With a piece on the source square [movePiece] returns true whenever
    it returns. *)
Lemma movePiece_returns_true (b b' : ChessBoard) (from to : string)
    (p : Piece) (r : bool) :
  getPieceAt b from = Ret (Some p) ->
  movePiece from to b = (Ret r, b') -> r = true.
Proof.
  intros Hp. unfold movePiece. cbv zeta.
  unfold sbind at 1. unfold get at 1.
  unfold sbind at 1. unfold lift at 1. rewrite Hp.
  intros H.
  apply sbind_Ret_inv in H. destruct H as (u1 & s1 & _ & H).
  apply sbind_Ret_inv in H. destruct H as (u2 & s2 & _ & H).
  apply sbind_Ret_inv in H. destruct H as (u3 & s3 & _ & H).
  unfold sret in H. congruence.
Qed.

(** What an accepted submission went through. *)
Lemma move_accepted_inv (fuel : nat) (player : ChessPlayer)
    (from to : string) (g g' : ChessGame) :
  move fuel player from to g = (Ret tt, g') ->
  exists legal fromPiece b' other,
    getLegalMoves fuel (board g) (fromPos_of from) = Ret legal /\
    includes legal (fromPos_of to) = true /\
    getPieceAt (board g) (fromPos_of from) = Ret (Some fromPiece) /\
    color fromPiece = side player /\
    movePiece (fromPos_of from) (fromPos_of to) (board g) = (Ret true, b') /\
    dict_get (sides g) (Color_to_string (oppositeSide player)) = Some other /\
    g' = set_turn (Color_to_string (side other))
           (set_history (history g ++ [String.append from (String.append " " to)])
              (set_board b' g)).
Proof.
  unfold move. cbv zeta. fold (fromPos_of from). fold (fromPos_of to).
  generalize (fromPos_of from) (fromPos_of to). intros fromPos toPos.
  unfold sbind at 1. unfold get at 1.
  unfold sbind at 1. unfold lift at 1.
  destruct (getLegalMoves fuel (board g) fromPos) as [legal | e | ];
    [ | discriminate | discriminate ].
  destruct (includes legal toPos) eqn:Einc; cbn [negb];
    [ | unfold throw, lift; cbv beta; discriminate ].
  unfold sbind at 1. unfold lift at 1.
  destruct (getPieceAt (board g) fromPos) as [fromPiece | e | ] eqn:Efrom;
    [ | discriminate | discriminate ].
  unfold sbind at 1. unfold lift at 1.
  destruct (getPieceAt (board g) toPos) as [toPiece | e | ];
    [ | discriminate | discriminate ].
  destruct fromPiece as [fromPiece | ];
    [ | unfold throw, lift; cbv beta; discriminate ].
  destruct (Color_eqb (color fromPiece) (side player)) eqn:Ecol; cbn [negb];
    [ | unfold throw, lift; cbv beta; discriminate ].
  match goal with |- (if ?c then _ else _) _ = _ -> _ => destruct c end;
    [ unfold throw, lift; cbv beta; discriminate | ].
  intros H.
  apply sbind_Ret_inv in H. destruct H as (moved & g1 & Hm & H).
  unfold on_board in Hm.
  destruct (movePiece _ _ (board g)) as [rm b'] eqn:Emove.
  injection Hm as -> <-.
  assert (moved = true) by (eapply movePiece_returns_true; eassumption).
  subst moved.
  apply sbind_Ret_inv in H. destruct H as (u1 & g2 & H1 & H).
  unfold modify in H1. injection H1 as _ <-.
  apply sbind_Ret_inv in H. destruct H as (u2 & g3 & H2 & H).
  unfold sendBoard in H2.
  apply sbind_Ret_inv in H2. destruct H2 as (g4 & g5 & H2 & H3).
  unfold get in H2. injection H2 as <- <-.
  unfold lift in H3. injection H3 as _ <-.
  apply sbind_Ret_inv in H. destruct H as (g6 & g7 & H4 & H).
  unfold get in H4. injection H4 as <- <-.
  cbn [sides set_history set_board] in H.
  destruct (dict_get (sides g) _) as [other | ] eqn:Eother;
    [ | unfold lift in H; cbv beta in H; discriminate ].
  unfold modify in H. injection H as <-.
  exists legal, fromPiece, b', other.
  apply Color_eqb_eq in Ecol.
  repeat split; try assumption; reflexivity.
Qed.

(** X4: an accepted submission appends exactly one entry, the two
    position strings as submitted, to the history, sets the turn to the
    side of the player seated on the other side, and changes neither the
    players, the seats, the player table nor the status. *)
Theorem accepted_move_bookkeeping (fuel : nat) (player : ChessPlayer)
    (from to : string) (g g' : ChessGame) :
  move fuel player from to g = (Ret tt, g') ->
  history g' = history g ++ [String.append from (String.append " " to)] /\
  (exists other,
     dict_get (sides g) (Color_to_string (oppositeSide player)) = Some other /\
     turn g' = Color_to_string (side other)) /\
  players g' = players g /\ sides g' = sides g /\
  playerTable g' = playerTable g /\ state g' = state g.
Proof.
  intros H. apply move_accepted_inv in H.
  destruct H as (legal & p & b' & other & _ & _ & _ & _ & _ & Ho & ->).
  split; [ reflexivity | ].
  split; [ exists other; split; [ exact Ho | reflexivity ] | ].
  repeat split.
Qed.

Lemma accepted_move_bookkeeping_witness :
  move 0 whitePlayer "e2" "e4" initialGame = (Ret tt, game_e4) /\
  history game_e4 = history initialGame ++ ["e2 e4"] /\
  turn game_e4 = "black".
Proof.
  assert (H : move 0 whitePlayer "e2" "e4" initialGame = (Ret tt, game_e4))
    by (vm_compute; reflexivity).
  split; [ exact H | ].
  destruct (accepted_move_bookkeeping 0 whitePlayer "e2" "e4" _ _ H)
    as (Hh & _ & _).
  split; [ exact Hh | reflexivity ].
Defined.

(** X5: a submission is accepted only for a piece of the player's own
    color and a destination among the legal moves of that piece; the
    board after it is the board after [movePiece], which returned true. *)
Theorem accepted_move_own_piece (fuel : nat) (player : ChessPlayer)
    (from to : string) (g g' : ChessGame) :
  move fuel player from to g = (Ret tt, g') ->
  let fromPos := coordinatesToPosition (positionToCoordinates from) in
  let toPos := coordinatesToPosition (positionToCoordinates to) in
  exists piece legal,
    getPieceAt (board g) fromPos = Ret (Some piece) /\
    color piece = side player /\
    getLegalMoves fuel (board g) fromPos = Ret legal /\
    In toPos legal /\
    movePiece fromPos toPos (board g) = (Ret true, board g').
Proof.
  intros H. apply move_accepted_inv in H.
  destruct H as (legal & p & b' & other & Hl & Hi & Hp & Hc & Hm & _ & ->).
  exists p, legal. apply includes_In in Hi.
  repeat split; assumption.
Qed.

Lemma accepted_move_own_piece_witness :
  move 0 whitePlayer "e2" "e4" initialGame = (Ret tt, game_e4) /\
  exists piece legal,
    getPieceAt (board initialGame) "e2" = Ret (Some piece) /\
    color piece = white /\
    getLegalMoves 0 (board initialGame) "e2" = Ret legal /\
    In "e4" legal /\
    movePiece "e2" "e4" (board initialGame) = (Ret true, board game_e4).
Proof.
  assert (H : move 0 whitePlayer "e2" "e4" initialGame = (Ret tt, game_e4))
    by (vm_compute; reflexivity).
  split; [ exact H | ].
  exact (accepted_move_own_piece 0 whitePlayer "e2" "e4" _ _ H).
Defined.

(** A square that neither color occupies has no legal moves. *)
Lemma getLegalMoves_unoccupied (attacked : string -> Color -> res bool)
    (b : ChessBoard) (pos : string) :
  isOccupiedBy b pos white = false ->
  isOccupiedBy b pos black = false ->
  getLegalMoves_with attacked b pos = Ret [].
Proof.
  intros Hw Hb. unfold getLegalMoves_with. rewrite Hw, Hb. reflexivity.
Qed.

Lemma getLegalMoves_nonempty_piece (attacked : string -> Color -> res bool)
    (b : ChessBoard) (pos : string) (legal : list string) (d : string) :
  getLegalMoves_with attacked b pos = Ret legal -> In d legal ->
  exists p, getPieceAt b pos = Ret (Some p).
Proof.
  unfold getLegalMoves_with.
  destruct (negb _ && negb _).
  { intros H; injection H as <-. intros []. }
  destruct (getPieceAt b pos) as [[p | ] | e | ]; cbn [bind].
  - intros _ _. exists p. reflexivity.
  - intros H; injection H as <-. intros [].
  - discriminate.
  - discriminate.
Qed.

Lemma move_unoccupied (fuel : nat) (player : ChessPlayer)
    (from to : string) (g : ChessGame) :
  isOccupiedBy (board g) (fromPos_of from) white = false ->
  isOccupiedBy (board g) (fromPos_of from) black = false ->
  move fuel player from to g
  = (Throw (ErrorMessage
              (String.append "Invalid move from "
                 (String.append from
                    (String.append " to " (String.append to "."))))), g).
Proof.
  intros Hw Hb. unfold move. cbv zeta. fold (fromPos_of from).
  unfold sbind at 1. unfold get at 1.
  unfold sbind at 1. unfold lift at 1.
  unfold getLegalMoves.
  rewrite (getLegalMoves_unoccupied _ _ _ Hw Hb). reflexivity.
Qed.

(** X6: a submission from a square that neither color occupies is
    refused as an invalid move, and the game is as before. *)
Theorem move_from_unoccupied_square (fuel : nat) (player : ChessPlayer)
    (from to : string) (g : ChessGame) :
  let fromPos := coordinatesToPosition (positionToCoordinates from) in
  isOccupiedBy (board g) fromPos white = false ->
  isOccupiedBy (board g) fromPos black = false ->
  move fuel player from to g
  = (Throw (ErrorMessage
              (String.append "Invalid move from "
                 (String.append from
                    (String.append " to " (String.append to "."))))), g).
Proof. intros fromPos. apply move_unoccupied. Qed.

Lemma move_from_unoccupied_square_witness :
  isOccupiedBy (board initialGame) "e4" white = false /\
  isOccupiedBy (board initialGame) "e4" black = false /\
  move 0 whitePlayer "e4" "e5" initialGame
  = (Throw (ErrorMessage "Invalid move from e4 to e5."), initialGame).
Proof.
  split; [ reflexivity | split; [ reflexivity | ] ].
  apply (move_from_unoccupied_square 0 whitePlayer "e4" "e5" initialGame);
    reflexivity.
Defined.

(** The generators and the check detection throw no message for the
    player. *)
#[local] Hint Resolve quiet_Ret quiet_BigInt squiet_sret squiet_get
  squiet_modify quiet_setPiece quiet_removePiece quiet_getPieceSymbol
  quiet_getPieceAt quiet_isEmpty : quiet.

Lemma quiet_isEnemy (b : ChessBoard) (pos : string) (c : Color) :
  quiet (isEnemy b pos c).
Proof. unfold isEnemy. quiet_tac. Qed.

#[local] Hint Resolve quiet_isEnemy : quiet.

Lemma quiet_getPawnMoves (b : ChessBoard) (pos : string) (c : Color) :
  quiet (getPawnMoves b pos c).
Proof. unfold getPawnMoves. cbv zeta. quiet_tac. Qed.

Lemma quiet_slide (n : nat) (b : ChessBoard) (c : Color)
    (cond : num -> bool) (at_ : num -> Coord) (step : num) :
  forall i moves, quiet (slide n b c cond at_ step i moves).
Proof.
  induction n as [ | n IH]; intros i moves; simpl; quiet_tac.
Qed.

#[local] Hint Resolve quiet_slide quiet_getPawnMoves : quiet.

Lemma quiet_getRookMoves (b : ChessBoard) (pos : string) (c : Color) :
  quiet (getRookMoves b pos c).
Proof. unfold getRookMoves, getRookMoves_from. cbv zeta. quiet_tac. Qed.

Lemma quiet_getBishopMoves (b : ChessBoard) (pos : string) (c : Color) :
  quiet (getBishopMoves b pos c).
Proof. unfold getBishopMoves. cbv zeta. quiet_tac. Qed.

#[local] Hint Resolve quiet_getRookMoves quiet_getBishopMoves : quiet.

Lemma quiet_getQueenMoves (b : ChessBoard) (pos : string) (c : Color) :
  quiet (getQueenMoves b pos c).
Proof. unfold getQueenMoves. quiet_tac. Qed.

Lemma quiet_knight_loop (b : ChessBoard) (c : Color) (cands : list Coord) :
  forall moves, quiet (knight_loop b c cands moves).
Proof.
  induction cands as [ | move rest IH]; intros moves; simpl; quiet_tac.
Qed.

#[local] Hint Resolve quiet_getQueenMoves quiet_knight_loop : quiet.

Section QuietOracle.
Variable attacked : string -> Color -> res bool.
Hypothesis attacked_quiet : forall pos c, quiet (attacked pos c).

Lemma quiet_king_loop (b : ChessBoard) (c : Color) (cands : list Coord) :
  forall moves, quiet (king_loop attacked b c cands moves).
Proof.
  induction cands as [ | move rest IH]; intros moves; simpl; quiet_tac.
Qed.

Lemma quiet_getLegalMoves_with (b : ChessBoard) (pos : string) :
  quiet (getLegalMoves_with attacked b pos).
Proof.
  unfold getLegalMoves_with, getKnightMoves, getKingMoves_with.
  quiet_tac. apply quiet_king_loop.
Qed.

Lemma quiet_check_scan (b : ChessBoard) (c : Color) (kingPosition : string)
    (sqs : list string) :
  quiet (check_scan (getLegalMoves_with attacked b) b c kingPosition sqs).
Proof.
  induction sqs as [ | pos rest IH]; simpl; quiet_tac.
  apply quiet_getLegalMoves_with.
Qed.
End QuietOracle.

Lemma quiet_isKingInCheck (fuel : nat) (b : ChessBoard) :
  forall pos c, quiet (isKingInCheck fuel b pos c).
Proof.
  induction fuel as [ | fuel IH]; intros pos c.
  - intros msg; discriminate.
  - change (isKingInCheck (S fuel) b pos c)
      with (check_scan (getLegalMoves_with (isKingInCheck fuel b) b) b
              (opponent c) pos allSquares).
    apply quiet_check_scan. exact IH.
Qed.

Lemma quiet_getLegalMoves (fuel : nat) (b : ChessBoard) (pos : string) :
  quiet (getLegalMoves fuel b pos).
Proof. apply quiet_getLegalMoves_with, quiet_isKingInCheck. Qed.

(** X7: no submission ends with the message that there is no piece on
    the source square: a square without a piece has no legal moves, so
    the submission is refused as an invalid move before the test for the
    piece. *)
Theorem no_piece_message_never_thrown (fuel : nat) (player : ChessPlayer)
    (from to : string) (g g' : ChessGame) :
  move fuel player from to g
  <> (Throw (ErrorMessage
               (String.append "There is no piece at " (String.append from "."))),
      g').
Proof.
  unfold move. cbv zeta. fold (fromPos_of from). fold (fromPos_of to).
  generalize (fromPos_of from) (fromPos_of to). intros fromPos toPos.
  unfold sbind at 1. unfold get at 1.
  unfold sbind at 1. unfold lift at 1.
  destruct (getLegalMoves fuel (board g) fromPos) as [legal | e | ] eqn:El;
    [ | | discriminate ].
  2: { intros H. injection H as -> _.
       exact (quiet_getLegalMoves _ _ _ _ El). }
  destruct (includes legal toPos) eqn:Einc; cbn [negb].
  2: { unfold throw, lift. cbn [String.append]. discriminate. }
  unfold sbind at 1. unfold lift at 1.
  destruct (getPieceAt (board g) fromPos) as [fromPiece | e | ] eqn:Efrom;
    [ | | discriminate ].
  2: { intros H. injection H as -> _. exact (quiet_getPieceAt _ _ _ Efrom). }
  unfold sbind at 1. unfold lift at 1.
  destruct (getPieceAt (board g) toPos) as [toPiece | e | ] eqn:Eto;
    [ | | discriminate ].
  2: { intros H. injection H as -> _. exact (quiet_getPieceAt _ _ _ Eto). }
  destruct fromPiece as [fromPiece | ].
  2: { exfalso. apply includes_In in Einc.
       destruct (getLegalMoves_nonempty_piece _ _ _ _ _ El Einc) as (p & Hp).
       congruence. }
  destruct (Color_eqb (color fromPiece) (side player)); cbn [negb].
  2: { unfold throw, lift. discriminate. }
  match goal with |- (if ?c then _ else _) _ <> _ => destruct c end.
  { unfold throw, lift. discriminate. }
  intros H.
  match type of H with
  | ?m g = _ =>
      assert (Q : squiet m);
      [ | eapply (Q g); rewrite H; reflexivity ]
  end.
  apply squiet_sbind; [ apply squiet_on_board, squiet_movePiece | intros moved ].
  destruct moved; [ | apply squiet_sret ].
  apply squiet_sbind; [ apply squiet_modify | intros _ ].
  apply squiet_sbind; [ apply squiet_sendBoard | intros _ ].
  apply squiet_sbind; [ apply squiet_get | intros g1 ].
  destruct (dict_get _ _); [ apply squiet_modify | ].
  apply squiet_lift. intros m; discriminate.
Qed.

Lemma no_piece_message_never_thrown_witness :
  move 0 whitePlayer "e4" "e5" initialGame
  = (Throw (ErrorMessage "Invalid move from e4 to e5."), initialGame) /\
  move 0 whitePlayer "e4" "e5" initialGame
  <> (Throw (ErrorMessage "There is no piece at e4."), initialGame).
Proof.
  split.
  - vm_compute. reflexivity.
  - exact (no_piece_message_never_thrown 0 whitePlayer "e4" "e5"
             initialGame initialGame).
Defined.

(** A position string that does not start with a letter a..h or has no
    digit in second place names, after the conversion to coordinates and
    back, a square that nothing occupies. *)
Lemma malformed_unoccupied (b : ChessBoard) (from : string) (c : Color) :
  indexOf letters (String.get 0 from) = -1 \/
  parseInt (String.get 1 from) = NaN ->
  isOccupiedBy b (fromPos_of from) c = false.
Proof.
  intros H.
  assert (E : row (positionToCoordinates (fromPos_of from)) = NaN).
  { unfold fromPos_of, positionToCoordinates at 2.
    unfold coordinatesToPosition. cbn [row col].
    destruct H as [H | H]; rewrite H.
    - reflexivity.
    - cbn [nsub nadd num_to_string].
      destruct (char_at letters _); reflexivity. }
  unfold isOccupiedBy, coordinatesToIndex. rewrite E. reflexivity.
Qed.

(** X8: a submission whose source string does not start with a letter
    a..h, or has no digit in second place, is refused as an invalid move
    on every board, and the game is as before. *)
Theorem move_malformed_position (fuel : nat) (player : ChessPlayer)
    (from to : string) (g : ChessGame) :
  indexOf letters (String.get 0 from) = -1 \/
  parseInt (String.get 1 from) = NaN ->
  move fuel player from to g
  = (Throw (ErrorMessage
              (String.append "Invalid move from "
                 (String.append from
                    (String.append " to " (String.append to "."))))), g).
Proof.
  intros H. apply move_unoccupied; apply malformed_unoccupied; exact H.
Qed.

Lemma move_malformed_position_witness :
  (indexOf letters (String.get 0 "x2") = -1 \/
   parseInt (String.get 1 "x2") = NaN) /\
  move 0 whitePlayer "x2" "e4" initialGame
  = (Throw (ErrorMessage "Invalid move from x2 to e4."), initialGame).
Proof.
  assert (H : indexOf letters (String.get 0 "x2") = -1 \/
              parseInt (String.get 1 "x2") = NaN) by (left; reflexivity).
  split; [ exact H | ].
  exact (move_malformed_position 0 whitePlayer "x2" "e4" initialGame H).
Defined.

(** ** Seating the players *)

Lemma new_ChessGame_eq :
  new_ChessGame
  = Ret (mkGame EmptyString [] [] [] initialBoard [] GameState.Prepared []).
Proof. reflexivity. Qed.

(** X9: starting a game for two users never fails: the first user is
    seated as white and the second as black, the turn is the id of the
    first user, the status is [Active], the history is empty and the
    board is the initial board; [getPlayer] finds the second user (and
    the first when the ids differ), and a third player is refused without
    a change of the game. *)
Theorem start_seats_players (u v : User) :
  exists g,
    ChessGame_start u v = Ret g /\
    players g = [mkPlayer white u; mkPlayer black v] /\
    dict_get (sides g) "white" = Some (mkPlayer white u) /\
    dict_get (sides g) "black" = Some (mkPlayer black v) /\
    turn g = user_id u /\
    state g = GameState.Active /\
    history g = [] /\
    board g = initialBoard /\
    getPlayer g v = Ret (mkPlayer black v) /\
    (user_id u <> user_id v -> getPlayer g u = Ret (mkPlayer white u)) /\
    (forall w, addPlayer w g = (Ret None, g)).
Proof.
  unfold ChessGame_start. rewrite new_ChessGame_eq. cbn [bind].
  unfold addPlayer, start, getPlayer.
  unfold sbind, get, modify, sret, lift, makePlayer, oppositeSide, opponent.
  cbn. unfold player_id. cbn [user].
  destruct (String.eqb (user_id u) (user_id v)) eqn:E; cbn [dict_get].
  - rewrite (String.eqb_sym (user_id v)), E. cbn.
    eexists. split; [ reflexivity | ]. cbn.
    rewrite String.eqb_refl, (String.eqb_sym (user_id v)), E.
    repeat (split; [ reflexivity | ]).
    split; [ | intros w; reflexivity ].
    intros N. apply String.eqb_eq in E. contradiction.
  - rewrite String.eqb_refl. cbn.
    eexists. split; [ reflexivity | ]. cbn.
    rewrite !String.eqb_refl, E.
    repeat (split; [ reflexivity | ]).
    intros w. reflexivity.
Qed.

(** ** The distribution of the pieces *)

Lemma distribution_length (b : ChessBoard) (sqs : list string) :
  forall dist, distribution b sqs = Ret dist ->
               List.length dist = List.length sqs.
Proof.
  induction sqs as [ | pos rest IH]; intros dist; cbn [distribution].
  - intros H; injection H as <-. reflexivity.
  - destruct (getPieceAt b pos) as [p | e | ]; cbn [bind]; try discriminate.
    destruct (distribution b rest) as [d | e | ]; cbn [bind];
      try discriminate.
    intros H; injection H as <-. cbn [List.length]. f_equal. apply IH.
    reflexivity.
Qed.

(** X10: whenever [getDistribution] returns, it returns 64 symbols. *)
Theorem getDistribution_length (b : ChessBoard) (dist : list (option string)) :
  getDistribution b = Ret dist -> List.length dist = 64%nat.
Proof. intros H. apply distribution_length in H. exact H. Qed.

Lemma getDistribution_length_witness :
  exists dist,
    getDistribution initialBoard = Ret dist /\ List.length dist = 64%nat.
Proof.
  eexists. split; [ vm_compute; reflexivity | ].
  apply (getDistribution_length initialBoard). vm_compute. reflexivity.
Defined.

(** X11: on a distribution of 64 symbols [reflectDistribution] swaps
    row [i] with row [7 - i]; it keeps the length and is its own
    inverse. *)
Theorem reflectDistribution_involutive (dist : list (option string)) :
  List.length dist = 64%nat ->
  List.length (reflectDistribution dist) = 64%nat /\
  reflectDistribution (reflectDistribution dist) = dist /\
  forall i j, (i < 8)%nat -> (j < 8)%nat ->
    nth (i * 8 + j) (reflectDistribution dist) None
    = nth ((7 - i) * 8 + j) dist None.
Proof.
  intros H.
  do 64 (destruct dist as [ | ? dist]; [ discriminate H | ];
         cbn [List.length] in H; apply Nat.succ_inj in H).
  destruct dist; [ | discriminate H ].
  split; [ reflexivity | ]. split; [ reflexivity | ].
  intros i j Hi Hj.
  do 8 (destruct i as [ | i]; [ do 8 (destruct j as [ | j]; [ reflexivity | ]); lia | ]).
  lia.
Qed.

Lemma reflectDistribution_involutive_witness :
  exists dist,
    getDistribution initialBoard = Ret dist /\
    reflectDistribution (reflectDistribution dist) = dist.
Proof.
  eexists. split; [ vm_compute; reflexivity | ].
  apply reflectDistribution_involutive. reflexivity.
Defined.

(** ** Where the generators go *)

Lemma Forall_push {A : Type} (P : A -> Prop) (l : list A) (x : A) :
  Forall P l -> P x -> Forall P (l ++ [x]).
Proof.
  intros Hl Hx. apply Forall_app. split; [ exact Hl | ].
  constructor; [ exact Hx | constructor ].
Qed.

Lemma slide_free (n : nat) (b : ChessBoard) (c : Color)
    (cond : num -> bool) (at_ : num -> Coord) (step : num) :
  forall i moves result,
    Forall (free_for b c) moves ->
    slide n b c cond at_ step i moves = Ret result ->
    Forall (free_for b c) result.
Proof.
  induction n as [ | n IH]; intros i moves result Hm H; cbn [slide] in H.
  - injection H as <-. exact Hm.
  - destruct (cond i); [ | injection H as <-; exact Hm ].
    destruct (isEmpty b _) as [[ | ] | e | ] eqn:E; cbn [bind] in H;
      try discriminate.
    + apply (IH _ _ _ (Forall_push _ _ _ Hm (or_introl E)) H).
    + destruct (isEnemy b _ c) as [[ | ] | e | ] eqn:E2; cbn [bind] in H;
        try discriminate; injection H as <-; [ | exact Hm ].
      apply Forall_push; [ exact Hm | right; exact E2 ].
Qed.

Lemma knight_loop_free (b : ChessBoard) (c : Color) (cands : list Coord) :
  forall moves result,
    Forall (free_for b c) moves ->
    knight_loop b c cands moves = Ret result ->
    Forall (free_for b c) result.
Proof.
  induction cands as [ | move rest IH]; intros moves result Hm H;
    cbn [knight_loop] in H.
  - injection H as <-. exact Hm.
  - destruct (in_bounds move); [ | exact (IH _ _ Hm H) ].
    destruct (isEmpty b _) as [[ | ] | e | ] eqn:E; cbn [bind] in H;
      try discriminate.
    + apply (IH _ _ (Forall_push _ _ _ Hm (or_introl E)) H).
    + destruct (isEnemy b _ c) as [[ | ] | e | ] eqn:E2; cbn [bind] in H;
        try discriminate.
      * apply (IH _ _ (Forall_push _ _ _ Hm (or_intror E2)) H).
      * exact (IH _ _ Hm H).
Qed.

Lemma king_loop_free (attacked : string -> Color -> res bool)
    (b : ChessBoard) (c : Color) (cands : list Coord) :
  forall moves result,
    Forall (free_for b c) moves ->
    king_loop attacked b c cands moves = Ret result ->
    Forall (free_for b c) result.
Proof.
  induction cands as [ | move rest IH]; intros moves result Hm H;
    cbn [king_loop] in H.
  - injection H as <-. exact Hm.
  - destruct (in_bounds move); [ | exact (IH _ _ Hm H) ].
    destruct (isEmpty b _) as [[ | ] | e | ] eqn:E; cbn [bind] in H;
      try discriminate.
    + destruct (attacked _ c) as [[ | ] | e | ]; cbn [bind negb] in H;
        try discriminate.
      * exact (IH _ _ Hm H).
      * apply (IH _ _ (Forall_push _ _ _ Hm (or_introl E)) H).
    + destruct (isEnemy b _ c) as [[ | ] | e | ] eqn:E2; cbn [bind] in H;
        try discriminate; [ | exact (IH _ _ Hm H) ].
      destruct (attacked _ c) as [[ | ] | e | ]; cbn [bind negb] in H;
        try discriminate.
      * exact (IH _ _ Hm H).
      * apply (IH _ _ (Forall_push _ _ _ Hm (or_intror E2)) H).
Qed.

Lemma getRookMoves_from_free (b : ChessBoard) (pos : string) (c : Color)
    (moves result : list string) :
  Forall (free_for b c) moves ->
  getRookMoves_from moves b pos c = Ret result ->
  Forall (free_for b c) result.
Proof.
  intros Hm. unfold getRookMoves_from. cbv zeta. intros H.
  repeat match type of H with
         | bind ?m _ = Ret _ =>
             let E := fresh "E" in
             destruct m as [? | ? | ] eqn:E; cbn [bind] in H;
             try discriminate
         end.
  eapply slide_free; [ | exact H ].
  eapply slide_free; [ | exact E1 ].
  eapply slide_free; [ | exact E0 ].
  eapply slide_free; [ | exact E ].
  exact Hm.
Qed.

Lemma getBishopMoves_free (b : ChessBoard) (pos : string) (c : Color)
    (result : list string) :
  getBishopMoves b pos c = Ret result -> Forall (free_for b c) result.
Proof.
  unfold getBishopMoves. cbv zeta. intros H.
  repeat match type of H with
         | bind ?m _ = Ret _ =>
             let E := fresh "E" in
             destruct m as [? | ? | ] eqn:E; cbn [bind] in H;
             try discriminate
         end.
  eapply slide_free; [ | exact H ].
  eapply slide_free; [ | exact E1 ].
  eapply slide_free; [ | exact E0 ].
  eapply slide_free; [ | exact E ].
  constructor.
Qed.

Lemma free_for_occupied (b : ChessBoard) (c : Color) (d : string) :
  free_for b c d ->
  isOccupiedBy b d c = true -> c = black /\ isOccupiedBy b d white = true.
Proof.
  unfold free_for, isEmpty, isEnemy, getPieceAt. cbv zeta.
  intros H O.
  destruct (isOccupiedBy b d white) eqn:Ow.
  - destruct c; [ | split; reflexivity ].
    exfalso. destruct H as [H | H];
      destruct (getPieceSymbol _ white); simpl in H; discriminate.
  - destruct c; [ congruence | ].
    rewrite O in H. exfalso. destruct H as [H | H];
      destruct (getPieceSymbol _ black); simpl in H; discriminate.
Qed.

(** X12: on every square returned by the generators of the rook, the
    bishop, the queen, the knight and the king [getPieceAt] finds no
    piece or a piece of the other color.  For a white piece such a
    square is never occupied by white; for a black piece it is occupied
    by black only when white occupies it too, as after a capture, where
    [getPieceAt] shows the white piece. *)
Theorem targets_empty_or_enemy (attacked : string -> Color -> res bool)
    (b : ChessBoard) (pos : string) (c : Color) (result : list string) :
  getRookMoves b pos c = Ret result \/
  getBishopMoves b pos c = Ret result \/
  getQueenMoves b pos c = Ret result \/
  getKnightMoves b pos c = Ret result \/
  getKingMoves_with attacked b pos c = Ret result ->
  forall d, In d result ->
    (isEmpty b d = Ret true \/ isEnemy b d c = Ret true) /\
    (isOccupiedBy b d c = true ->
     c = black /\ isOccupiedBy b d white = true).
Proof.
  intros H.
  assert (F : Forall (free_for b c) result).
  { destruct H as [H | [H | [H | [H | H]]]].
    - eapply getRookMoves_from_free; [ constructor | exact H ].
    - apply (getBishopMoves_free _ _ _ _ H).
    - unfold getQueenMoves in H.
      destruct (getRookMoves b pos c) as [r | e | ] eqn:Er; cbn [bind] in H;
        try discriminate.
      destruct (getBishopMoves b pos c) as [d | e | ] eqn:Ed; cbn [bind] in H;
        try discriminate.
      injection H as <-. apply Forall_app. split.
      + eapply getRookMoves_from_free; [ constructor | exact Er ].
      + apply (getBishopMoves_free _ _ _ _ Ed).
    - eapply knight_loop_free; [ constructor | exact H ].
    - eapply king_loop_free; [ constructor | exact H ]. }
  intros d Hd. rewrite Forall_forall in F. specialize (F d Hd).
  split; [ exact F | apply free_for_occupied, F ].
Qed.

Lemma targets_empty_or_enemy_witness :
  getQueenMoves (board game_exd5) "d8" black = Ret ["d7"; "d6"; "d5"] /\
  (isEmpty (board game_exd5) "d5" = Ret true \/
   isEnemy (board game_exd5) "d5" black = Ret true) /\
  isOccupiedBy (board game_exd5) "d5" black = true /\
  isOccupiedBy (board game_exd5) "d5" white = true.
Proof.
  assert (H : getQueenMoves (board game_exd5) "d8" black
              = Ret ["d7"; "d6"; "d5"]) by (vm_compute; reflexivity).
  assert (O : isOccupiedBy (board game_exd5) "d5" black = true)
    by (vm_compute; reflexivity).
  assert (I : In "d5" ["d7"; "d6"; "d5"]) by (simpl; tauto).
  destruct (targets_empty_or_enemy (fun _ _ => Ret false) (board game_exd5)
              "d8" black _ (or_intror (or_intror (or_introl H))) "d5" I)
    as [F K].
  split; [ exact H | ].
  split; [ exact F | ].
  split; [ exact O | ].
  exact (proj2 (K O)).
Defined.

Lemma in_bounds_valid (c : Coord) :
  in_bounds c = true -> valid_position (coordinatesToPosition c).
Proof.
  intros H. destruct (in_bounds_cases c H) as (r & k & -> & Hr & Hk).
  unfold range8 in Hr, Hk. simpl in Hr, Hk.
  repeat (destruct Hr as [<- | Hr]; [ | ]); try contradiction;
    repeat (destruct Hk as [<- | Hk]; [ | ]); try contradiction;
    eexists; eexists; (split; [ | split; [ | reflexivity ] ]);
    simpl; tauto.
Qed.

Lemma in_bounds_Int (r k : Z) :
  0 <= r < 8 -> 0 <= k < 8 -> in_bounds (mkCoord (Int r) (Int k)) = true.
Proof.
  intros Hr Hk. unfold in_bounds. cbn [row col nge nlt].
  unfold Z.geb.
  destruct (Z.compare_spec r 0); destruct (Z.compare_spec k 0); try lia;
    rewrite !andb_true_iff; repeat split; apply Z.ltb_lt; lia.
Qed.

Lemma valid_position_coords (s : string) :
  valid_position s ->
  exists r k, positionToCoordinates s = mkCoord (Int r) (Int k) /\
              0 <= r < 8 /\ 0 <= k < 8.
Proof.
  intros (f & r & Hf & Hr & ->).
  unfold files in Hf; unfold ranks in Hr; simpl in Hf, Hr.
  repeat (destruct Hf as [<- | Hf]; [ | ]); try contradiction;
    repeat (destruct Hr as [<- | Hr]; [ | ]); try contradiction;
    eexists; eexists; (split; [ vm_compute; reflexivity | lia ]).
Qed.

(** A sliding loop whose squares are on the board as long as its
    condition holds adds only squares of the board; [inv] is what is known
    of the loop variable. *)
Lemma slide_valid (inv : num -> Prop) (b : ChessBoard) (c : Color)
    (cond : num -> bool) (at_ : num -> Coord) (step : num) :
  (forall i, inv i -> cond i = true ->
             in_bounds (at_ i) = true /\ inv (nadd i step)) ->
  forall n i moves result,
    inv i ->
    Forall valid_position moves ->
    slide n b c cond at_ step i moves = Ret result ->
    Forall valid_position result.
Proof.
  intros Hstep. induction n as [ | n IH]; intros i moves result Hi Hm H;
    cbn [slide] in H.
  - injection H as <-. exact Hm.
  - destruct (cond i) eqn:Ec; [ | injection H as <-; exact Hm ].
    destruct (Hstep i Hi Ec) as [Hb Hn]. apply in_bounds_valid in Hb.
    destruct (isEmpty b _) as [[ | ] | e | ]; cbn [bind] in H;
      try discriminate.
    + apply (IH _ _ _ Hn (Forall_push _ _ _ Hm Hb) H).
    + destruct (isEnemy b _ c) as [[ | ] | e | ]; cbn [bind] in H;
        try discriminate; injection H as <-; [ | exact Hm ].
      apply Forall_push; assumption.
Qed.

Ltac slide_side :=
  let i := fresh "i" in
  let z := fresh "z" in
  let Hz := fresh "Hz" in
  let Hc := fresh "Hc" in
  intros i (z & -> & Hz) Hc; cbn [nadd nsub nlt nge] in Hc;
  rewrite ?andb_true_iff in Hc; unfold Z.geb in Hc;
  split;
  [ cbn [nadd nsub]; apply in_bounds_Int;
    repeat match goal with
           | H : _ /\ _ |- _ => destruct H
           | H : (_ <? _) = true |- _ => apply Z.ltb_lt in H
           | H : match ?x ?= ?y with _ => _ end = true |- _ =>
               destruct (Z.compare_spec x y); try discriminate H; clear H
           end; lia
  | eexists; split; [ reflexivity | lia ] ].

Lemma getRookMoves_valid (b : ChessBoard) (pos : string) (c : Color)
    (result : list string) :
  valid_position pos ->
  getRookMoves b pos c = Ret result -> Forall valid_position result.
Proof.
  intros Hv. destruct (valid_position_coords pos Hv) as (r & k & E & Hr & Hk).
  unfold getRookMoves, getRookMoves_from. rewrite E. cbv zeta.
  cbn [row col nadd nsub]. intros H.
  repeat match type of H with
         | bind ?m _ = Ret _ =>
             let E := fresh "E" in
             destruct m as [? | ? | ] eqn:E; cbn [bind] in H;
             try discriminate
         end.
  eapply (slide_valid (at_most 7)); [ | | | exact H ].
  { slide_side. }
  { eexists; split; [ reflexivity | lia ]. }
  eapply (slide_valid (at_least 0)); [ | | | exact E2 ].
  { slide_side. }
  { eexists; split; [ reflexivity | lia ]. }
  eapply (slide_valid (at_most 7)); [ | | | exact E1 ].
  { slide_side. }
  { eexists; split; [ reflexivity | lia ]. }
  eapply (slide_valid (at_least 0)); [ | | | exact E0 ].
  { slide_side. }
  { eexists; split; [ reflexivity | lia ]. }
  constructor.
Qed.

Lemma getBishopMoves_valid (b : ChessBoard) (pos : string) (c : Color)
    (result : list string) :
  valid_position pos ->
  getBishopMoves b pos c = Ret result -> Forall valid_position result.
Proof.
  intros Hv. destruct (valid_position_coords pos Hv) as (r & k & E & Hr & Hk).
  unfold getBishopMoves. rewrite E. cbv zeta.
  cbn [row col]. intros H.
  repeat match type of H with
         | bind ?m _ = Ret _ =>
             let E := fresh "E" in
             destruct m as [? | ? | ] eqn:E; cbn [bind] in H;
             try discriminate
         end.
  eapply (slide_valid (at_least 1)); [ | | | exact H ].
  { slide_side. }
  { eexists; split; [ reflexivity | lia ]. }
  eapply (slide_valid (at_least 1)); [ | | | exact E2 ].
  { slide_side. }
  { eexists; split; [ reflexivity | lia ]. }
  eapply (slide_valid (at_least 1)); [ | | | exact E1 ].
  { slide_side. }
  { eexists; split; [ reflexivity | lia ]. }
  eapply (slide_valid (at_least 1)); [ | | | exact E0 ].
  { slide_side. }
  { eexists; split; [ reflexivity | lia ]. }
  constructor.
Qed.

Lemma knight_loop_valid (b : ChessBoard) (c : Color) (cands : list Coord) :
  forall moves result,
    Forall valid_position moves ->
    knight_loop b c cands moves = Ret result ->
    Forall valid_position result.
Proof.
  induction cands as [ | move rest IH]; intros moves result Hm H;
    cbn [knight_loop] in H.
  - injection H as <-. exact Hm.
  - destruct (in_bounds move) eqn:Eb; [ | exact (IH _ _ Hm H) ].
    assert (V : valid_position
                  (coordinatesToPosition (mkCoord (row move) (col move)))).
    { destruct move. apply in_bounds_valid, Eb. }
    destruct (isEmpty b _) as [[ | ] | e | ]; cbn [bind] in H;
      try discriminate.
    + apply (IH _ _ (Forall_push _ _ _ Hm V) H).
    + destruct (isEnemy b _ c) as [[ | ] | e | ]; cbn [bind] in H;
        try discriminate.
      * apply (IH _ _ (Forall_push _ _ _ Hm V) H).
      * exact (IH _ _ Hm H).
Qed.

Lemma king_loop_valid (attacked : string -> Color -> res bool)
    (b : ChessBoard) (c : Color) (cands : list Coord) :
  forall moves result,
    Forall valid_position moves ->
    king_loop attacked b c cands moves = Ret result ->
    Forall valid_position result.
Proof.
  induction cands as [ | move rest IH]; intros moves result Hm H;
    cbn [king_loop] in H.
  - injection H as <-. exact Hm.
  - destruct (in_bounds move) eqn:Eb; [ | exact (IH _ _ Hm H) ].
    assert (V : valid_position
                  (coordinatesToPosition (mkCoord (row move) (col move)))).
    { destruct move. apply in_bounds_valid, Eb. }
    destruct (isEmpty b _) as [e | x | ]; cbn [bind] in H;
      try discriminate.
    destruct (if e then Ret true else isEnemy b _ c) as [[ | ] | x | ];
      cbn [bind] in H; try discriminate; [ | exact (IH _ _ Hm H) ].
    destruct (attacked _ c) as [[ | ] | x | ]; cbn [bind negb] in H;
      try discriminate.
    + exact (IH _ _ Hm H).
    + apply (IH _ _ (Forall_push _ _ _ Hm V) H).
Qed.

(** X13: the generators of the knight and of the king return valid
    positions only, and so do those of the rook, the bishop and the queen
    for a piece on a valid position. *)
Theorem targets_on_board (attacked : string -> Color -> res bool)
    (b : ChessBoard) (pos : string) (c : Color) (result : list string) :
  getKnightMoves b pos c = Ret result \/
  getKingMoves_with attacked b pos c = Ret result \/
  (valid_position pos /\
   (getRookMoves b pos c = Ret result \/
    getBishopMoves b pos c = Ret result \/
    getQueenMoves b pos c = Ret result)) ->
  forall d, In d result -> valid_position d.
Proof.
  intros H. apply Forall_forall.
  destruct H as [H | [H | [Hv [H | [H | H]]]]].
  - eapply knight_loop_valid; [ constructor | exact H ].
  - eapply king_loop_valid; [ constructor | exact H ].
  - apply (getRookMoves_valid _ _ _ _ Hv H).
  - apply (getBishopMoves_valid _ _ _ _ Hv H).
  - unfold getQueenMoves in H.
    destruct (getRookMoves b pos c) as [r | e | ] eqn:Er; cbn [bind] in H;
      try discriminate.
    destruct (getBishopMoves b pos c) as [d | e | ] eqn:Ed; cbn [bind] in H;
      try discriminate.
    injection H as <-. apply Forall_app. split.
    + apply (getRookMoves_valid _ _ _ _ Hv Er).
    + apply (getBishopMoves_valid _ _ _ _ Hv Ed).
Qed.

Lemma targets_on_board_witness :
  getKnightMoves initialBoard "g1" white = Ret ["h3"; "f3"] /\
  valid_position "h3".
Proof.
  assert (H : getKnightMoves initialBoard "g1" white = Ret ["h3"; "f3"])
    by (vm_compute; reflexivity).
  split; [ exact H | ].
  apply (targets_on_board (fun _ _ => Ret false) initialBoard "g1" white _
           (or_introl H)).
  simpl. tauto.
Defined.

(** ** Pawns at the edge of the board *)

Lemma shiftr_neg_even (x k : Z) : k < 0 -> Z.land (Z.shiftr x k) 1 = 0.
Proof.
  intros Hk. change 1 with (Z.ones 1). rewrite Z.land_ones by lia.
  rewrite <- (Z.opp_involutive k), Z.shiftr_opp_r, Z.shiftl_mul_pow2 by lia.
  replace (- k) with (- k - 1 + 1) by lia.
  rewrite Z.pow_add_r by lia. change (2 ^ 1) with 2.
  rewrite Z.mul_assoc. apply Z.mod_mul. lia.
Qed.

Lemma negative_index_empty (b : ChessBoard) (pos : string) (i : Z) :
  coordinatesToIndex (positionToCoordinates pos) = Int i -> i < 0 ->
  isEmpty b pos = Ret true.
Proof.
  intros E Hi. unfold isEmpty, getPieceAt, isOccupiedBy. rewrite E.
  rewrite !shiftr_neg_even by exact Hi. reflexivity.
Qed.

Lemma In_push (x y : string) (l : list string) : In x l -> In x (push l y).
Proof. intros H. unfold push. apply in_or_app. left; exact H. Qed.

(** A pawn may always step onto the square ahead when that square is
    empty. *)
Lemma pawn_steps_ahead (b : ChessBoard) (pos : string) (c : Color)
    (moves : list string) :
  isEmpty b (ahead pos c) = Ret true ->
  getPawnMoves b pos c = Ret moves ->
  In (ahead pos c) moves.
Proof.
  intros He. unfold getPawnMoves. cbv zeta. fold (ahead pos c).
  rewrite He. cbn [bind]. intros H.
  match type of H with
  | bind ?m _ = _ =>
      assert (M : forall l, m = Ret l -> In (ahead pos c) l)
  end.
  { clear H He. intros l. destruct (nseq _ _).
    - destruct (isEmpty b _) as [[ | ] | e | ]; cbn [bind]; try discriminate;
        intros E; injection E as <-; unfold push; simpl; tauto.
    - intros E; injection E as <-. unfold push; simpl; tauto. }
  match type of H with
  | bind ?m _ = _ => destruct m as [l | e | ]; [ | discriminate | discriminate ]
  end.
  specialize (M l eq_refl). cbn [bind] in H.
  repeat match type of H with
         | bind ?m _ = Ret _ =>
             destruct m as [[ | ] | ? | ]; cbn [bind] in H; try discriminate
         | (if ?x then _ else _) = Ret _ => destruct x
         end;
    injection H as <-; repeat apply In_push; exact M.
Qed.

(** X14: the generator of the pawn does not stop at the edge of the
    board: for a black pawn on the first rank it returns, on every board,
    the position with rank digit 0, which is not a valid position. *)
Theorem black_pawn_leaves_board (b : ChessBoard) (f : ascii)
    (moves : list string) :
  In f files ->
  getPawnMoves b (String f "1") black = Ret moves ->
  In (String f "0") moves /\ ~ valid_position (String f "0").
Proof.
  intros Hf H. split.
  - assert (A : ahead (String f "1") black = String f "0").
    { unfold files in Hf. simpl in Hf.
      repeat (destruct Hf as [<- | Hf]; [ reflexivity | ]). contradiction. }
    rewrite <- A. apply (pawn_steps_ahead b _ _ moves); [ | exact H ].
    rewrite A.
    unfold files in Hf. simpl in Hf.
    repeat (destruct Hf as [<- | Hf];
            [ eapply negative_index_empty; [ vm_compute; reflexivity | lia ]
            | ]).
    contradiction.
  - intros (f' & r & _ & Hr & E). inversion E; subst.
    unfold ranks in Hr. simpl in Hr.
    repeat (destruct Hr as [Hr | Hr]; [ discriminate Hr | ]). contradiction.
Qed.

Lemma black_pawn_leaves_board_witness :
  exists b moves,
    In "c"%char files /\
    getPawnMoves b "c1" black = Ret moves /\
    In "c0" moves.
Proof.
  exists (mkBoard 0 (Z.lor 4 (Z.shiftl 1 72)) 0 0 true true).
  eexists. split; [ simpl; tauto | ].
  split; [ vm_compute; reflexivity | ].
  apply (black_pawn_leaves_board
           (mkBoard 0 (Z.lor 4 (Z.shiftl 1 72)) 0 0 true true) "c"%char).
  - simpl; tauto.
  - vm_compute; reflexivity.
Defined.

(** ** What a move leaves alone *)

Lemma preserves_sret {S A X : Type} (f : S -> X) (a : A) :
  preserves f (sret a).
Proof. intros s; reflexivity. Qed.

Lemma preserves_lift {S A X : Type} (f : S -> X) (r : res A) :
  preserves f (lift r).
Proof. intros s; reflexivity. Qed.

Lemma preserves_get {S X : Type} (f : S -> X) : preserves f get.
Proof. intros s; reflexivity. Qed.

Lemma preserves_modify {S X : Type} (f : S -> X) (h : S -> S) :
  (forall s, f (h s) = f s) -> preserves f (modify h).
Proof. intros H s; apply H. Qed.

Lemma preserves_sbind {S A B X : Type} (f : S -> X) (m : St S A)
    (k : A -> St S B) :
  preserves f m -> (forall a, preserves f (k a)) -> preserves f (sbind m k).
Proof.
  intros Hm Hk s. unfold sbind. specialize (Hm s).
  destruct (m s) as [[a | e | ] s1]; cbn [snd] in *; try exact Hm.
  rewrite Hk. exact Hm.
Qed.

Ltac preserves_step :=
  match goal with
  | |- preserves _ (sbind _ _) => apply preserves_sbind; [ | intros ]
  | |- preserves _ (lift _) => apply preserves_lift
  | |- preserves _ (sret _) => apply preserves_sret
  | |- preserves _ get => apply preserves_get
  | |- preserves _ (modify _) => apply preserves_modify; intros; reflexivity
  | |- preserves _ (if ?c then _ else _) => destruct c
  | |- preserves _ (match ?x with _ => _ end) => destruct x
  end.

Lemma getPieceAt_color (b : ChessBoard) (pos : string) (p : Piece) :
  getPieceAt b pos = Ret (Some p) ->
  (color p = white /\ isOccupiedBy b pos white = true) \/
  (color p = black /\ isOccupiedBy b pos white = false /\
   isOccupiedBy b pos black = true).
Proof.
  unfold getPieceAt. cbv zeta.
  destruct (isOccupiedBy b pos white).
  - destruct (getPieceSymbol _ white); cbn [bind]; try discriminate.
    intros H; injection H as <-. left. split; reflexivity.
  - destruct (isOccupiedBy b pos black); [ | discriminate ].
    destruct (getPieceSymbol _ black); cbn [bind]; try discriminate.
    intros H; injection H as <-. right. repeat split; reflexivity.
Qed.

(** X15: [movePiece] of a piece that is not a pawn changes neither the
    en passant fields nor the bit field of the other color, whatever the
    destination and the outcome: a captured piece stays in its field. *)
Theorem movePiece_not_a_pawn (b : ChessBoard) (from to : string) (p : Piece) :
  getPieceAt b from = Ret (Some p) ->
  type p <> PieceType.Pawn ->
  let b' := snd (movePiece from to b) in
  pawnsEnPassantWhite b' = pawnsEnPassantWhite b /\
  pawnsEnPassantBlack b' = pawnsEnPassantBlack b /\
  (color p = white -> blackPieces b' = blackPieces b) /\
  (color p = black -> whitePieces b' = whitePieces b).
Proof.
  intros Hp Ht. apply Z.eqb_neq in Ht.
  assert (M : forall (X : Type) (f : ChessBoard -> X),
             (forall w s, f (set_whitePieces w s) = f s) \/
             isOccupiedBy b from white = false ->
             (forall k s, f (set_blackPieces k s) = f s) \/
             isOccupiedBy b from white = true ->
             f (snd (movePiece from to b)) = f b).
  { intros X f Hw Hk.
    unfold movePiece. cbv zeta.
    unfold sbind at 1. unfold get at 1.
    unfold sbind at 1. unfold lift at 1. rewrite Hp. rewrite Ht.
    cbn [andb].
    match goal with
    | |- f (snd (?m b)) = f b => assert (Q : preserves f m); [ | apply Q ]
    end.
    apply preserves_sbind; [ apply preserves_sret | intros _ ].
    apply preserves_sbind; [ | intros _ ].
    2: { apply preserves_sbind; [ apply preserves_sret | intros _ ].
         apply preserves_sret. }
    destruct (isOccupiedBy b from white).
    - destruct Hw as [Hw | Hw]; [ | discriminate ].
      repeat preserves_step.
      all: apply preserves_modify; intros; apply Hw.
    - destruct Hk as [Hk | Hk]; [ | discriminate ].
      destruct (isOccupiedBy b from black); [ | apply preserves_sret ].
      repeat preserves_step.
      all: apply preserves_modify; intros; apply Hk. }
  destruct (getPieceAt_color _ _ _ Hp) as [[Hc Ho] | [Hc [Ho _]]];
    cbv zeta; repeat split.
  all: try (intros E; congruence).
  all: try intros _.
  all: first [ apply (M _ pawnsEnPassantWhite)
             | apply (M _ pawnsEnPassantBlack)
             | apply (M _ blackPieces)
             | apply (M _ whitePieces) ];
    first [ left; intros; reflexivity | right; assumption ].
Qed.

Lemma movePiece_not_a_pawn_witness :
  exists p,
    getPieceAt (board game_e4) "d1" = Ret (Some p) /\
    type p <> PieceType.Pawn /\
    blackPieces (snd (movePiece "d1" "h5" (board game_e4)))
    = blackPieces (board game_e4).
Proof.
  eexists.
  assert (H : getPieceAt (board game_e4) "d1"
              = Ret (Some (mkPiece white PieceType.Queen "d1" (Some "Q"))))
    by (vm_compute; reflexivity).
  split; [ exact H | ].
  assert (T : type (mkPiece white PieceType.Queen "d1" (Some "Q"))
              <> PieceType.Pawn) by discriminate.
  split; [ exact T | ].
  apply (movePiece_not_a_pawn (board game_e4) "d1" "h5" _ H T). reflexivity.
Defined.

(** ** The bit fields *)

Lemma occupancy_testbit (w i : Z) :
  negb (Z.land (Z.shiftr w i) 1 =? 0) = Z.testbit w i.
Proof.
  rewrite <- (Z.add_0_l i) at 2. rewrite <- Z.shiftr_spec by lia.
  change 1 with (Z.ones 1). rewrite Z.land_ones by lia.
  change (2 ^ 1) with 2. rewrite <- Z.bit0_mod.
  destruct (Z.testbit (Z.shiftr w i) 0); reflexivity.
Qed.

Lemma testbit_one (i j : Z) :
  0 <= i -> Z.testbit (Z.shiftl 1 i) j = (j =? i).
Proof.
  intros Hi. rewrite Z.shiftl_1_l. rewrite Z.pow2_bits_eqb by exact Hi.
  apply Z.eqb_sym.
Qed.

Lemma testbit_small (t k : Z) :
  0 <= t < 16 -> Z.testbit t k = (0 <=? k) && (k <? 4) && Z.testbit t k.
Proof.
  intros Ht. destruct (Z.leb_spec 0 k); cbn [andb].
  - destruct (Z.ltb_spec k 4); cbn [andb]; [ reflexivity | ].
    rewrite <- (Z.mod_small t (2 ^ 4)) by (change (2 ^ 4) with 16; lia).
    apply Z.mod_pow2_bits_high. lia.
  - apply Z.testbit_neg_r. lia.
Qed.

Lemma testbit_maxBinary (k : Z) :
  Z.testbit maxBinary k = (0 <=? k) && (k <? 4).
Proof.
  change maxBinary with (Z.ones 4).
  destruct (Z.leb_spec 0 k); cbn [andb].
  - destruct (Z.ltb_spec k 4).
    + apply Z.ones_spec_low. lia.
    + apply Z.ones_spec_high. lia.
  - apply Z.testbit_neg_r. lia.
Qed.

Lemma setPiece_Int (w i t : Z) :
  setPiece w (Int i) t
  = Ret (Z.lor (Z.lor w (Z.shiftl 1 i))
           (Z.shiftl t (calculateBitLength (Int i)))).
Proof. reflexivity. Qed.

Lemma removePiece_Int (w i : Z) :
  removePiece w (Int i)
  = Ret (Z.land (Z.land w (Z.lnot (Z.shiftl 1 i)))
           (Z.lnot (Z.shiftl maxBinary (calculateBitLength (Int i))))).
Proof. reflexivity. Qed.

Lemma calculateBitLength_Int (i : Z) : calculateBitLength (Int i) = 4 * i + 64.
Proof. unfold calculateBitLength, bitOffset. lia. Qed.

Lemma Ret_inj {A : Type} (a b : A) : Ret a = Ret b -> a = b.
Proof. congruence. Qed.

Section Fields.
Variables (w w' i t : Z).
Hypothesis Hi : 0 <= i < 64.

Lemma setPiece_occupancy (j : Z) :
  setPiece w (Int i) t = Ret w' -> 0 <= j < 64 ->
  Z.testbit w' j = Z.testbit w j || (j =? i).
Proof.
  rewrite setPiece_Int, calculateBitLength_Int. intros E Hj.
  apply Ret_inj in E. subst w'.
  rewrite !Z.lor_spec, testbit_one by lia.
  rewrite Z.shiftl_spec by lia.
  rewrite (Z.testbit_neg_r t) by lia. apply orb_false_r.
Qed.

Lemma removePiece_occupancy (j : Z) :
  removePiece w (Int i) = Ret w' -> 0 <= j < 64 ->
  Z.testbit w' j = Z.testbit w j && negb (j =? i).
Proof.
  rewrite removePiece_Int, calculateBitLength_Int. intros E Hj.
  apply Ret_inj in E. subst w'.
  rewrite !Z.land_spec, !Z.lnot_spec, testbit_one by lia.
  rewrite Z.shiftl_spec by lia.
  rewrite (Z.testbit_neg_r maxBinary) by lia. apply andb_true_r.
Qed.

Lemma typeAt_bits (x j n : Z) :
  0 <= n ->
  Z.testbit (typeAt x j) n = Z.testbit x (n + (4 * j + 64)) && (n <? 4).
Proof.
  intros Hn. unfold typeAt. rewrite calculateBitLength_Int.
  rewrite Z.land_spec, Z.shiftr_spec, testbit_maxBinary by exact Hn.
  destruct (Z.leb_spec 0 n); [ reflexivity | lia ].
Qed.

Lemma setPiece_type (j : Z) :
  setPiece w (Int i) t = Ret w' -> 0 <= j -> 0 <= t < 16 ->
  typeAt w' j = if j =? i then Z.lor (typeAt w i) t else typeAt w j.
Proof.
  rewrite setPiece_Int, calculateBitLength_Int. intros E Hj Ht.
  apply Ret_inj in E. subst w'. apply Z.bits_inj'. intros n Hn.
  rewrite typeAt_bits by exact Hn.
  rewrite !Z.lor_spec, testbit_one by lia.
  rewrite Z.shiftl_spec by lia.
  replace (n + (4 * j + 64) =? i) with false by (symmetry; apply Z.eqb_neq; lia).
  rewrite orb_false_r.
  rewrite (testbit_small t (n + (4 * j + 64) - (4 * i + 64))) by exact Ht.
  destruct (Z.eqb_spec j i) as [-> | Hne].
  - rewrite Z.lor_spec, typeAt_bits by exact Hn.
    replace (n + (4 * i + 64) - (4 * i + 64)) with n by lia.
    rewrite (testbit_small t n) at 2 by exact Ht.
    destruct (Z.leb_spec 0 n); [ | lia ].
    destruct (n <? 4); cbn [andb]; rewrite ?andb_false_r, ?orb_false_r,
      ?andb_true_r; reflexivity.
  - rewrite typeAt_bits by exact Hn.
    destruct (Z.ltb_spec n 4); [ | rewrite !andb_false_r; reflexivity ].
    replace ((0 <=? n + (4 * j + 64) - (4 * i + 64))
             && (n + (4 * j + 64) - (4 * i + 64) <? 4)) with false.
    + cbn [andb]. rewrite orb_false_r. reflexivity.
    + symmetry. apply andb_false_iff.
      destruct (Z.leb_spec 0 (n + (4 * j + 64) - (4 * i + 64)));
        [ right; apply Z.ltb_ge; lia | left; reflexivity ].
Qed.

Lemma removePiece_type (j : Z) :
  removePiece w (Int i) = Ret w' -> 0 <= j ->
  typeAt w' j = if j =? i then 0 else typeAt w j.
Proof.
  rewrite removePiece_Int, calculateBitLength_Int. intros E Hj.
  apply Ret_inj in E. subst w'. apply Z.bits_inj'. intros n Hn.
  rewrite typeAt_bits by exact Hn.
  rewrite !Z.land_spec, !Z.lnot_spec, testbit_one by lia.
  rewrite Z.shiftl_spec, testbit_maxBinary by lia.
  replace (n + (4 * j + 64) =? i) with false by (symmetry; apply Z.eqb_neq; lia).
  cbn [negb]. rewrite andb_true_r.
  destruct (Z.eqb_spec j i) as [-> | Hne].
  - rewrite Z.bits_0.
    replace (n + (4 * i + 64) - (4 * i + 64)) with n by lia.
    destruct (Z.leb_spec 0 n); [ | lia ].
    destruct (n <? 4); cbn [andb negb]; rewrite ?andb_false_r; reflexivity.
  - rewrite typeAt_bits by exact Hn.
    destruct (Z.ltb_spec n 4); [ | rewrite !andb_false_r; reflexivity ].
    replace ((0 <=? n + (4 * j + 64) - (4 * i + 64))
             && (n + (4 * j + 64) - (4 * i + 64) <? 4)) with false.
    + cbn [negb]. rewrite !andb_true_r. reflexivity.
    + symmetry. apply andb_false_iff.
      destruct (Z.leb_spec 0 (n + (4 * j + 64) - (4 * i + 64)));
        [ right; apply Z.ltb_ge; lia | left; reflexivity ].
Qed.
End Fields.

Lemma isOccupiedBy_testbit (b : ChessBoard) (pos : string) (c : Color) (i : Z) :
  coordinatesToIndex (positionToCoordinates pos) = Int i ->
  isOccupiedBy b pos c = Z.testbit (field c b) i.
Proof.
  intros E. unfold isOccupiedBy. rewrite E.
  destruct c; apply occupancy_testbit.
Qed.

Lemma valid_index (s : string) :
  valid_position s ->
  exists i, coordinatesToIndex (positionToCoordinates s) = Int i /\
            0 <= i < 64.
Proof.
  intros (f & r & Hf & Hr & ->).
  unfold files in Hf; unfold ranks in Hr; simpl in Hf, Hr.
  repeat (destruct Hf as [<- | Hf]; [ | ]); try contradiction;
    repeat (destruct Hr as [<- | Hr]; [ | ]); try contradiction;
    eexists; (split; [ vm_compute; reflexivity | lia ]).
Qed.

Lemma valid_index_inj (s1 s2 : string) (i : Z) :
  valid_position s1 -> valid_position s2 ->
  coordinatesToIndex (positionToCoordinates s1) = Int i ->
  coordinatesToIndex (positionToCoordinates s2) = Int i ->
  s1 = s2.
Proof.
  intros (f1 & r1 & Hf1 & Hr1 & ->) (f2 & r2 & Hf2 & Hr2 & ->) E1 E2.
  assert (P : forall f r, In f files -> In r ranks ->
              coordinatesToPosition
                (match coordinatesToIndex
                         (positionToCoordinates (String f (String r EmptyString)))
                 with
                 | Int z => mkCoord (Int (z / 8)) (Int (z mod 8))
                 | NaN => mkCoord NaN NaN
                 end)
              = String f (String r EmptyString)).
  { intros f r Hf Hr. unfold files in Hf; unfold ranks in Hr.
    simpl in Hf, Hr.
    repeat (destruct Hf as [<- | Hf]; [ | ]); try contradiction;
      repeat (destruct Hr as [<- | Hr]; [ | ]); try contradiction;
      reflexivity. }
  rewrite <- (P f1 r1 Hf1 Hr1), <- (P f2 r2 Hf2 Hr2), E1, E2. reflexivity.
Qed.

(** ** Taking a piece off the board *)

Lemma capturePiece_spec (b : ChessBoard) (pos : string) :
  valid_position pos ->
  exists b',
    capturePiece pos b
    = (Ret (isOccupiedBy b pos white || isOccupiedBy b pos black), b') /\
    isOccupiedBy b' pos white = false /\
    isOccupiedBy b' pos black
    = isOccupiedBy b pos white && isOccupiedBy b pos black /\
    forall q c, valid_position q -> q <> pos ->
                isOccupiedBy b' q c = isOccupiedBy b q c.
Proof.
  intros Hv. destruct (valid_index pos Hv) as (i & Ei & Hi).
  assert (F : forall w w' q j c b',
             removePiece w (Int i) = Ret w' ->
             valid_position q -> q <> pos ->
             coordinatesToIndex (positionToCoordinates q) = Int j ->
             0 <= j < 64 ->
             field c b' = w' \/ field c b' = field c b ->
             field c b = w \/ field c b' = field c b ->
             isOccupiedBy b' q c = isOccupiedBy b q c).
  { intros w w' q j c b' Hr Hq Hne Ej Hj H1 H2.
    rewrite !(isOccupiedBy_testbit _ q c j Ej).
    destruct H1 as [H1 | H1]; [ | rewrite H1; reflexivity ].
    destruct H2 as [H2 | H2]; [ | rewrite H2; reflexivity ].
    rewrite H1, H2, (removePiece_occupancy w w' i Hi j Hr Hj).
    destruct (Z.eqb_spec j i) as [-> | _]; [ | apply andb_true_r ].
    exfalso. apply Hne. apply (valid_index_inj q pos i); assumption. }
  unfold capturePiece. cbv zeta. unfold sbind at 1. unfold get at 1.
  rewrite Ei.
  destruct (isOccupiedBy b pos white) eqn:Ew.
  - unfold sbind, lift, modify, sret. rewrite removePiece_Int.
    eexists. split; [ reflexivity | ].
    rewrite (isOccupiedBy_testbit _ pos white i Ei),
      (isOccupiedBy_testbit _ pos black i Ei). cbn [field set_whitePieces
      whitePieces blackPieces].
    rewrite (removePiece_occupancy _ _ i Hi i (removePiece_Int _ _) Hi).
    rewrite Z.eqb_refl, andb_false_r.
    rewrite (isOccupiedBy_testbit _ pos _ i Ei). cbn [field andb].
    split; [ reflexivity | ]. split; [ reflexivity | ].
    intros q c Hq Hne. destruct (valid_index q Hq) as (j & Ej & Hj).
    apply (F (whitePieces b) _ q j c _ (removePiece_Int _ _) Hq Hne Ej Hj);
      destruct c; cbn [field set_whitePieces whitePieces blackPieces]; auto.
  - destruct (isOccupiedBy b pos black) eqn:Ek.
    + unfold sbind, lift, modify, sret. rewrite removePiece_Int.
      eexists. split; [ reflexivity | ].
      rewrite (isOccupiedBy_testbit _ pos white i Ei),
        (isOccupiedBy_testbit _ pos black i Ei). cbn [field set_blackPieces
        whitePieces blackPieces].
      rewrite (removePiece_occupancy _ _ i Hi i (removePiece_Int _ _) Hi).
      rewrite Z.eqb_refl, andb_false_r.
      rewrite (isOccupiedBy_testbit _ pos _ i Ei) in Ew. cbn [field] in Ew.
      split; [ exact Ew | ]. split; [ reflexivity | ].
      intros q c Hq Hne. destruct (valid_index q Hq) as (j & Ej & Hj).
      apply (F (blackPieces b) _ q j c _ (removePiece_Int _ _) Hq Hne Ej Hj);
        destruct c; cbn [field set_blackPieces whitePieces blackPieces]; auto.
    + unfold sret. exists b. split; [ reflexivity | ].
      split; [ exact Ew | ]. split; [ exact Ek | ]. reflexivity.
Qed.

(** X16: on a valid position [capturePiece] returns whether the square
    was occupied and removes one piece: the white one if there is one,
    else the black one.  A black piece on a square that held both stays,
    and no other valid square changes. *)
Theorem capturePiece_effect (b : ChessBoard) (pos : string) :
  valid_position pos ->
  exists b',
    capturePiece pos b
    = (Ret (isOccupiedBy b pos white || isOccupiedBy b pos black), b') /\
    isOccupiedBy b' pos white = false /\
    isOccupiedBy b' pos black
    = isOccupiedBy b pos white && isOccupiedBy b pos black /\
    forall q c, valid_position q -> q <> pos ->
                isOccupiedBy b' q c = isOccupiedBy b q c.
Proof. apply capturePiece_spec. Qed.

(** ** Moving a piece *)

Lemma movePiece_steps (b : ChessBoard) (from to : string) (p : Piece) :
  getPieceAt b from = Ret (Some p) ->
  movePiece from to b
  = (_ <~ enPassantStep b from to p ;;
     _ <~ relocate (color p) (coordinatesToIndex (positionToCoordinates from))
            (coordinatesToIndex (positionToCoordinates to)) (type p) ;;
     _ <~ flagStep from to p ;;
     sret true) b.
Proof.
  intros Hp. destruct (getPieceAt_color _ _ _ Hp) as [[Hc Ho] | [Hc [Ho Hk]]].
  - replace (relocate (color p)) with (relocate white)
      by (rewrite Hc; reflexivity).
    unfold movePiece. cbv zeta. unfold sbind at 1. unfold get at 1.
    unfold sbind at 1. unfold lift at 1. rewrite Hp, Ho. reflexivity.
  - replace (relocate (color p)) with (relocate black)
      by (rewrite Hc; reflexivity).
    unfold movePiece. cbv zeta. unfold sbind at 1. unfold get at 1.
    unfold sbind at 1. unfold lift at 1. rewrite Hp, Ho, Hk. reflexivity.
Qed.

Lemma relocate_Int (c : Color) (f t' ty : Z) (s : ChessBoard) :
  exists w1 w2,
    removePiece (field c s) (Int f) = Ret w1 /\
    setPiece w1 (Int t') ty = Ret w2 /\
    relocate c (Int f) (Int t') ty s = (Ret tt, set_field c w2 s).
Proof. destruct c; eexists; eexists; repeat split; reflexivity. Qed.

Lemma flagStep_fields (from to : string) (p : Piece) (s : ChessBoard) :
  whitePieces (snd (flagStep from to p s)) = whitePieces s /\
  blackPieces (snd (flagStep from to p s)) = blackPieces s.
Proof.
  split.
  - assert (Q : preserves whitePieces (flagStep from to p)); [ | apply Q ].
    unfold flagStep. cbv zeta. repeat preserves_step.
  - assert (Q : preserves blackPieces (flagStep from to p)); [ | apply Q ].
    unfold flagStep. cbv zeta. repeat preserves_step.
Qed.

Lemma capturePiece_touched (b s : ChessBoard) (pos : string) (i : Z)
    (r : res bool) :
  coordinatesToIndex (positionToCoordinates pos) = Int i ->
  capturePiece pos b = (r, s) -> touched i b s.
Proof.
  intros Ei. unfold capturePiece. cbv zeta. rewrite Ei.
  unfold sbind at 1. unfold get at 1.
  destruct (isOccupiedBy b pos white).
  - unfold sbind, lift, modify, sret. rewrite removePiece_Int.
    intros H. injection H as _ <-. intros [ | ]; [ right | left ]; reflexivity.
  - destruct (isOccupiedBy b pos black).
    + unfold sbind, lift, modify, sret. rewrite removePiece_Int.
      intros H. injection H as _ <-.
      intros [ | ]; [ left | right ]; reflexivity.
    + unfold sret. intros H. injection H as _ <-. intros c. left; reflexivity.
Qed.

Lemma coords_index (s : string) (r k : Z) :
  positionToCoordinates s = mkCoord (Int r) (Int k) ->
  coordinatesToIndex (positionToCoordinates s) = Int (r * 8 + k).
Proof. intros E. rewrite E. reflexivity. Qed.

Lemma in_bounds_roundtrip (r k : Z) :
  0 <= r < 8 -> 0 <= k < 8 ->
  positionToCoordinates (coordinatesToPosition (mkCoord (Int r) (Int k)))
  = mkCoord (Int r) (Int k).
Proof.
  intros Hr Hk.
  assert (R : In r range8) by (unfold range8; simpl; lia).
  assert (K : In k range8) by (unfold range8; simpl; lia).
  unfold range8 in R, K. simpl in R, K.
  repeat (destruct R as [<- | R]; [ | ]); try contradiction;
    repeat (destruct K as [<- | K]; [ | ]); try contradiction; reflexivity.
Qed.

Lemma enPassantStep_touched (b s : ChessBoard) (from to : string) (p : Piece)
    (rf kf rt kt : Z) (r : res unit) :
  positionToCoordinates from = mkCoord (Int rf) (Int kf) ->
  positionToCoordinates to = mkCoord (Int rt) (Int kt) ->
  0 <= rf < 8 -> 0 <= kt < 8 ->
  enPassantStep b from to p b = (r, s) ->
  s = b \/
  (Z.abs (rf - rt) = 1 /\ Z.abs (kf - kt) = 1 /\ touched (rf * 8 + kt) b s).
Proof.
  intros Ef Et Hrf Hkt. unfold enPassantStep. cbv zeta. rewrite Ef, Et.
  cbn [row col nsub nabs nseq].
  destruct (type p =? PieceType.Pawn); cbn [andb];
    [ | intros H; injection H as _ <-; left; reflexivity ].
  destruct (Z.eqb_spec (Z.abs (rf - rt)) 1) as [Hr | _]; cbn [andb];
    [ | intros H; injection H as _ <-; left; reflexivity ].
  destruct (Z.eqb_spec (Z.abs (kf - kt)) 1) as [Hk | _];
    [ | intros H; injection H as _ <-; left; reflexivity ].
  unfold sbind at 1. unfold lift at 1.
  destruct (isEmpty b to) as [[ | ] | e | ];
    try (intros H; injection H as _ <-; left; reflexivity).
  destruct (isOccupiedBy b _ (opponent (color p)));
    [ | intros H; injection H as _ <-; left; reflexivity ].
  intros H. right. split; [ exact Hr | ]. split; [ exact Hk | ].
  unfold sbind in H.
  destruct (capturePiece _ b) as [rc s1] eqn:Ec.
  assert (T : touched (rf * 8 + kt) b s1).
  { eapply capturePiece_touched; [ | exact Ec ].
    apply coords_index, in_bounds_roundtrip; assumption. }
  destruct rc; injection H as _ <-; exact T.
Qed.

Lemma touched_occupancy (e j : Z) (b s : ChessBoard) (c : Color) :
  touched e b s -> 0 <= e < 64 -> 0 <= j < 64 -> j <> e ->
  Z.testbit (field c s) j = Z.testbit (field c b) j.
Proof.
  intros T He Hj Hne. destruct (T c) as [-> | H]; [ reflexivity | ].
  rewrite (removePiece_occupancy _ _ e He j H Hj).
  apply Z.eqb_neq in Hne. rewrite Hne. apply andb_true_r.
Qed.

Lemma touched_type (e j : Z) (b s : ChessBoard) (c : Color) :
  touched e b s -> 0 <= e < 64 -> 0 <= j -> j <> e ->
  typeAt (field c s) j = typeAt (field c b) j.
Proof.
  intros T He Hj Hne. destruct (T c) as [-> | H]; [ reflexivity | ].
  rewrite (removePiece_type _ _ e He j H Hj).
  apply Z.eqb_neq in Hne. rewrite Hne. reflexivity.
Qed.

Lemma field_set_field (c : Color) (w : Z) (b : ChessBoard) :
  field c (set_field c w b) = w /\
  field (opponent c) (set_field c w b) = field (opponent c) b.
Proof. destruct c; split; reflexivity. Qed.

(** The fields after a move that returns, for a source and a destination
    on the board. *)
Lemma movePiece_fields (b b' : ChessBoard) (from to : string) (p : Piece)
    (rf kf rt kt : Z) (r : bool) :
  positionToCoordinates from = mkCoord (Int rf) (Int kf) ->
  positionToCoordinates to = mkCoord (Int rt) (Int kt) ->
  0 <= rf < 8 -> 0 <= kt < 8 ->
  getPieceAt b from = Ret (Some p) ->
  movePiece from to b = (Ret r, b') ->
  exists s w1 w2,
    (s = b \/
     (Z.abs (rf - rt) = 1 /\ Z.abs (kf - kt) = 1 /\
      touched (rf * 8 + kt) b s)) /\
    removePiece (field (color p) s) (Int (rf * 8 + kf)) = Ret w1 /\
    setPiece w1 (Int (rt * 8 + kt)) (type p) = Ret w2 /\
    field (color p) b' = w2 /\
    field (opponent (color p)) b' = field (opponent (color p)) s /\
    r = true.
Proof.
  intros Ef Et Hrf Hkt Hp H.
  rewrite (movePiece_steps _ _ _ _ Hp) in H.
  rewrite (coords_index _ _ _ Ef), (coords_index _ _ _ Et) in H.
  apply sbind_Ret_inv in H. destruct H as ([] & s & H1 & H).
  apply sbind_Ret_inv in H. destruct H as ([] & s2 & H2 & H).
  apply sbind_Ret_inv in H. destruct H as ([] & s3 & H3 & H).
  unfold sret in H. injection H as <- <-.
  destruct (relocate_Int (color p) (rf * 8 + kf) (rt * 8 + kt) (type p) s)
    as (w1 & w2 & R1 & R2 & R3).
  rewrite R3 in H2. injection H2 as <-.
  destruct (flagStep_fields from to p (set_field (color p) w2 s)) as [Fw Fk].
  rewrite H3 in Fw, Fk. cbn [snd] in Fw, Fk.
  destruct (field_set_field (color p) w2 s) as [G1 G2].
  exists s, w1, w2.
  split; [ eapply enPassantStep_touched; eassumption | ].
  split; [ exact R1 | ]. split; [ exact R2 | ].
  split; [ | split; [ | reflexivity ] ].
  - rewrite <- G1. destruct (color p); cbn [field]; assumption.
  - rewrite <- G2. destruct (color p); cbn [field opponent]; assumption.
Qed.

(** X17: when [movePiece] between two different valid positions
    returns, it returns true, the color of the piece occupies the
    destination and no longer the source, and the occupancy of every
    other valid square, the square of an en passant capture aside, is as
    before for both colors. *)
Theorem movePiece_relocates (b b' : ChessBoard) (from to : string)
    (p : Piece) (r : bool) :
  valid_position from -> valid_position to -> from <> to ->
  getPieceAt b from = Ret (Some p) ->
  movePiece from to b = (Ret r, b') ->
  r = true /\
  isOccupiedBy b' to (color p) = true /\
  isOccupiedBy b' from (color p) = false /\
  forall q c,
    valid_position q -> q <> from -> q <> to ->
    q <> coordinatesToPosition
           (mkCoord (row (positionToCoordinates from))
                    (col (positionToCoordinates to))) ->
    isOccupiedBy b' q c = isOccupiedBy b q c.
Proof.
  intros Vf Vt Hne Hp H.
  destruct (valid_position_coords from Vf) as (rf & kf & Ef & Hrf & Hkf).
  destruct (valid_position_coords to Vt) as (rt & kt & Et & Hrt & Hkt).
  pose proof (coords_index _ _ _ Ef) as If.
  pose proof (coords_index _ _ _ Et) as It.
  assert (Hft : rf * 8 + kf <> rt * 8 + kt).
  { intros E. apply Hne.
    apply (valid_index_inj from to (rf * 8 + kf)); congruence. }
  destruct (movePiece_fields _ _ _ _ _ _ _ _ _ _ Ef Et Hrf Hkt Hp H)
    as (s & w1 & w2 & Hs & R1 & R2 & F1 & F2 & ->).
  split; [ reflexivity | ].
  rewrite (isOccupiedBy_testbit _ to _ _ It),
    (isOccupiedBy_testbit _ from _ _ If), F1.
  assert (B1 : 0 <= rf * 8 + kf < 64) by lia.
  assert (B2 : 0 <= rt * 8 + kt < 64) by lia.
  split; [ | split ].
  - rewrite (setPiece_occupancy _ _ _ _ B2 _ R2 B2), Z.eqb_refl.
    apply orb_true_r.
  - rewrite (setPiece_occupancy _ _ _ _ B2 _ R2 B1).
    rewrite (removePiece_occupancy _ _ _ B1 _ R1 B1), Z.eqb_refl.
    apply Z.eqb_neq in Hft. rewrite Hft, andb_false_r. reflexivity.
  - intros q c Vq Hqf Hqt Hqe. rewrite Ef, Et in Hqe. cbn [row col] in Hqe.
    destruct (valid_index q Vq) as (j & Ej & Hj).
    rewrite !(isOccupiedBy_testbit _ q c j Ej).
    assert (Jf : j <> rf * 8 + kf).
    { intros E. apply Hqf. apply (valid_index_inj q from j); congruence. }
    assert (Jt : j <> rt * 8 + kt).
    { intros E. apply Hqt. apply (valid_index_inj q to j); congruence. }
    assert (S : Z.testbit (field c s) j = Z.testbit (field c b) j).
    { destruct Hs as [-> | (_ & _ & T)]; [ reflexivity | ].
      apply (touched_occupancy (rf * 8 + kt)); try assumption; try lia.
      intros E. apply Hqe.
      apply (valid_index_inj q _ j Vq).
      - apply in_bounds_valid, in_bounds_Int; assumption.
      - exact Ej.
      - rewrite (coords_index _ rf kt) by
          (apply in_bounds_roundtrip; assumption).
        congruence. }
    rewrite <- S.
    assert (C : c = color p \/ c = opponent (color p))
      by (destruct c, (color p); auto).
    destruct C as [-> | ->].
    + rewrite F1, (setPiece_occupancy _ _ _ _ B2 _ R2 Hj).
      rewrite (removePiece_occupancy _ _ _ B1 _ R1 Hj).
      apply Z.eqb_neq in Jf, Jt. rewrite Jf, Jt.
      rewrite andb_true_r, orb_false_r. reflexivity.
    + rewrite F2. reflexivity.
Qed.

Lemma getPieceAt_index (b : ChessBoard) (pos : string) (i : Z) :
  coordinatesToIndex (positionToCoordinates pos) = Int i ->
  getPieceAt b pos
  = if Z.testbit (whitePieces b) i then
      s <- getPieceSymbol (typeAt (whitePieces b) i) white ;;
      Ret (Some (mkPiece white (typeAt (whitePieces b) i) pos s))
    else if Z.testbit (blackPieces b) i then
      s <- getPieceSymbol (typeAt (blackPieces b) i) black ;;
      Ret (Some (mkPiece black (typeAt (blackPieces b) i) pos s))
    else Ret None.
Proof.
  intros E. unfold getPieceAt. cbv zeta.
  rewrite (isOccupiedBy_testbit b pos white i E),
    (isOccupiedBy_testbit b pos black i E), E.
  reflexivity.
Qed.

Lemma getPieceAt_piece (b : ChessBoard) (pos : string) (p : Piece) :
  getPieceAt b pos = Ret (Some p) ->
  0 <= type p < 16 /\ getPieceSymbol (type p) (color p) = Ret (symbol p).
Proof.
  unfold getPieceAt. cbv zeta.
  assert (R : forall x, 0 <= Z.land x maxBinary < 16).
  { intros x. change maxBinary with (Z.ones 4). rewrite Z.land_ones by lia.
    change (2 ^ 4) with 16. apply Z.mod_pos_bound. lia. }
  destruct (isOccupiedBy b pos white).
  - destruct (getPieceSymbol _ white) eqn:E; cbn [bind]; try discriminate.
    intros H; injection H as <-. cbn [type color symbol]. split; [ apply R | exact E ].
  - destruct (isOccupiedBy b pos black); [ | discriminate ].
    destruct (getPieceSymbol _ black) eqn:E; cbn [bind]; try discriminate.
    intros H; injection H as <-. cbn [type color symbol]. split; [ apply R | exact E ].
Qed.

(** X18: on a clean board a piece moved between two different valid
    positions arrives as it was: when its color did not occupy the
    destination (and, for a black piece, white did not either),
    [getPieceAt] finds on the destination a piece of the same color,
    type and symbol. *)
Theorem movePiece_piece_arrives (b b' : ChessBoard) (from to : string)
    (p : Piece) (r : bool) :
  valid_position from -> valid_position to -> from <> to ->
  clean b ->
  getPieceAt b from = Ret (Some p) ->
  isOccupiedBy b to (color p) = false ->
  (color p = black -> isOccupiedBy b to white = false) ->
  movePiece from to b = (Ret r, b') ->
  getPieceAt b' to = Ret (Some (mkPiece (color p) (type p) to (symbol p))).
Proof.
  intros Vf Vt Hne Hclean Hp Hfree Hwhite H.
  destruct (valid_position_coords from Vf) as (rf & kf & Ef & Hrf & Hkf).
  destruct (valid_position_coords to Vt) as (rt & kt & Et & Hrt & Hkt).
  pose proof (coords_index _ _ _ Ef) as If.
  pose proof (coords_index _ _ _ Et) as It.
  assert (Hft : rt * 8 + kt <> rf * 8 + kf).
  { intros E. apply Hne.
    apply (valid_index_inj from to (rf * 8 + kf)); congruence. }
  destruct (movePiece_fields _ _ _ _ _ _ _ _ _ _ Ef Et Hrf Hkt Hp H)
    as (s & w1 & w2 & Hs & R1 & R2 & F1 & F2 & ->).
  destruct (getPieceAt_piece _ _ _ Hp) as [Hty Hsym].
  assert (B1 : 0 <= rf * 8 + kf < 64) by lia.
  assert (B2 : 0 <= rt * 8 + kt < 64) by lia.
  assert (S : forall c, Z.testbit (field c s) (rt * 8 + kt)
                        = Z.testbit (field c b) (rt * 8 + kt) /\
                        typeAt (field c s) (rt * 8 + kt)
                        = typeAt (field c b) (rt * 8 + kt)).
  { intros c. destruct Hs as [-> | (A1 & _ & T)]; [ split; reflexivity | ].
    split.
    - apply (touched_occupancy (rf * 8 + kt)); try assumption; lia.
    - apply (touched_type (rf * 8 + kt)); try assumption; lia. }
  rewrite (isOccupiedBy_testbit _ to _ _ It) in Hfree.
  assert (Occ : Z.testbit (field (color p) b') (rt * 8 + kt) = true).
  { rewrite F1, (setPiece_occupancy _ _ _ _ B2 _ R2 B2), Z.eqb_refl.
    apply orb_true_r. }
  assert (Ty : typeAt (field (color p) b') (rt * 8 + kt) = type p).
  { rewrite F1, (setPiece_type _ _ _ _ B2 _ R2) by lia.
    rewrite Z.eqb_refl.
    rewrite (removePiece_type _ _ _ B1 _ R1) by lia.
    apply Z.eqb_neq in Hft. rewrite Hft.
    rewrite (proj2 (S (color p))).
    rewrite (Hclean (color p) _ B2 Hfree). reflexivity. }
  rewrite (getPieceAt_index _ _ _ It).
  destruct (color p) eqn:Ec; cbn [field opponent] in *.
  - rewrite Occ, Ty, Hsym. reflexivity.
  - specialize (Hwhite eq_refl).
    rewrite (isOccupiedBy_testbit _ to _ _ It) in Hwhite. cbn [field] in Hwhite.
    pose proof (proj1 (S white)) as Sw. cbn [field] in Sw.
    rewrite F2, Sw, Hwhite, Occ, Ty, Hsym. reflexivity.
Qed.

(** ** Clean boards stay clean *)

Lemma clean_fields (b : ChessBoard) :
  clean b <-> cleanField (whitePieces b) /\ cleanField (blackPieces b).
Proof.
  split.
  - intros H. split; intros i Hi Ht; [ apply (H white) | apply (H black) ];
      assumption.
  - intros [Hw Hk] [ | ] i Hi Ht; [ apply Hw | apply Hk ]; assumption.
Qed.

Lemma cleanField_removePiece (w w' e : Z) :
  0 <= e < 64 -> removePiece w (Int e) = Ret w' ->
  cleanField w -> cleanField w'.
Proof.
  intros He R H i Hi Ht.
  rewrite (removePiece_type _ _ _ He _ R) by lia.
  rewrite (removePiece_occupancy _ _ _ He _ R Hi) in Ht.
  destruct (Z.eqb_spec i e); [ reflexivity | ].
  rewrite andb_true_r in Ht. apply H; assumption.
Qed.

Lemma cleanField_setPiece (w w' e t : Z) :
  0 <= e < 64 -> 0 <= t < 16 -> setPiece w (Int e) t = Ret w' ->
  cleanField w -> cleanField w'.
Proof.
  intros He Ht R H i Hi Hb.
  rewrite (setPiece_type _ _ _ _ He _ R) by lia.
  rewrite (setPiece_occupancy _ _ _ _ He _ R Hi) in Hb.
  destruct (Z.eqb_spec i e).
  - rewrite orb_true_r in Hb. discriminate.
  - rewrite orb_false_r in Hb. apply H; assumption.
Qed.

Lemma clean_touched (e : Z) (b s : ChessBoard) :
  0 <= e < 64 -> touched e b s -> clean b -> clean s.
Proof.
  intros He T H c. destruct (T c) as [E | R].
  - rewrite E. apply H.
  - apply (cleanField_removePiece _ _ e He R). exact (H c).
Qed.

Lemma clean_same_fields (b s : ChessBoard) :
  whitePieces s = whitePieces b -> blackPieces s = blackPieces b ->
  clean b -> clean s.
Proof.
  intros Ew Ek H [ | ]; cbn [field]; [ rewrite Ew | rewrite Ek ];
    [ apply (H white) | apply (H black) ].
Qed.

Lemma clean_initialBoard : clean initialBoard.
Proof.
  intros c i Hi.
  assert (N : exists n, (n < 64)%nat /\ i = Z.of_nat n).
  { exists (Z.to_nat i). lia. }
  destruct N as (n & Hn & ->). clear Hi.
  destruct c;
    do 64 (destruct n as [ | n];
           [ vm_compute; intros H; first [ discriminate H | reflexivity ] | ]);
    lia.
Qed.

Lemma movePiece_clean (b : ChessBoard) (from to : string) (p : Piece) :
  valid_position from -> valid_position to ->
  getPieceAt b from = Ret (Some p) ->
  clean b -> clean (snd (movePiece from to b)).
Proof.
  intros Vf Vt Hp Hc.
  destruct (valid_position_coords from Vf) as (rf & kf & Ef & Hrf & Hkf).
  destruct (valid_position_coords to Vt) as (rt & kt & Et & Hrt & Hkt).
  rewrite (movePiece_steps _ _ _ _ Hp).
  rewrite (coords_index _ _ _ Ef), (coords_index _ _ _ Et).
  unfold sbind at 1.
  destruct (enPassantStep b from to p b) as [r1 s] eqn:E1.
  assert (Cs : clean s).
  { destruct (enPassantStep_touched _ _ _ _ _ _ _ _ _ _ Ef Et Hrf Hkt E1)
      as [-> | (_ & _ & T)]; [ exact Hc | ].
    apply (clean_touched (rf * 8 + kt) b s); [ lia | exact T | exact Hc ]. }
  destruct r1 as [[] | e | ]; [ | exact Cs | exact Cs ].
  unfold sbind at 1.
  destruct (relocate_Int (color p) (rf * 8 + kf) (rt * 8 + kt) (type p) s)
    as (w1 & w2 & R1 & R2 & R3).
  rewrite R3.
  assert (C2 : clean (set_field (color p) w2 s)).
  { destruct (getPieceAt_piece _ _ _ Hp) as [Hty _].
    assert (W : cleanField w2).
    { assert (B1 : 0 <= rf * 8 + kf < 64) by lia.
      assert (B2 : 0 <= rt * 8 + kt < 64) by lia.
      apply (cleanField_setPiece _ _ _ _ B2 Hty R2).
      apply (cleanField_removePiece _ _ _ B1 R1).
      exact (Cs (color p)). }
    apply clean_fields. apply clean_fields in Cs. destruct Cs as [Cw Ck].
    destruct (color p); cbn [set_field set_whitePieces set_blackPieces
      whitePieces blackPieces]; split; assumption. }
  unfold sbind at 1.
  pose proof (flagStep_fields from to p (set_field (color p) w2 s)) as [Fw Fk].
  destruct (flagStep from to p (set_field (color p) w2 s)) as [r3 s3].
  cbn [snd] in Fw, Fk.
  assert (C3 : clean s3) by (apply (clean_same_fields _ _ Fw Fk C2)).
  destruct r3 as [[] | e | ]; exact C3.
Qed.

Lemma capturePiece_clean (b : ChessBoard) (pos : string) :
  valid_position pos -> clean b -> clean (snd (capturePiece pos b)).
Proof.
  intros V Hc. destruct (valid_index pos V) as (i & Ei & Hi).
  destruct (capturePiece pos b) as [r s] eqn:E.
  apply (clean_touched i b s Hi); [ | exact Hc ].
  apply (capturePiece_touched _ _ _ _ _ Ei E).
Qed.

(** X19: clean boards stay clean: [movePiece] between valid positions
    and [capturePiece] on a valid position leave the type bits of the
    squares a color does not occupy at zero, whatever their outcome. *)
Theorem board_stays_clean (b : ChessBoard) (from to : string) (p : Piece) :
  valid_position from -> valid_position to ->
  getPieceAt b from = Ret (Some p) ->
  clean b ->
  clean (snd (movePiece from to b)) /\ clean (snd (capturePiece to b)).
Proof.
  intros Vf Vt Hp Hc. split.
  - apply (movePiece_clean _ _ _ _ Vf Vt Hp Hc).
  - apply (capturePiece_clean _ _ Vt Hc).
Qed.

(** ** A captured white piece stays in sight *)

Lemma isEmpty_white (b : ChessBoard) (pos : string) :
  isOccupiedBy b pos white = true -> isEmpty b pos = Ret false.
Proof.
  intros H. unfold isEmpty, getPieceAt. cbv zeta. rewrite H. reflexivity.
Qed.

Lemma getPieceAt_white (b1 b2 : ChessBoard) (pos : string) :
  whitePieces b1 = whitePieces b2 ->
  isOccupiedBy b2 pos white = true ->
  getPieceAt b1 pos = getPieceAt b2 pos.
Proof.
  intros E H.
  assert (H1 : isOccupiedBy b1 pos white = true).
  { unfold isOccupiedBy in *. rewrite E. exact H. }
  unfold getPieceAt. cbv zeta. rewrite H, H1, E. reflexivity.
Qed.

(** X20: when a black piece moves onto a square that white occupies,
    the bit field of the white pieces is unchanged and [getPieceAt] still
    finds the white piece there. *)
Theorem black_capture_leaves_white_piece (b : ChessBoard) (from to : string)
    (p : Piece) :
  getPieceAt b from = Ret (Some p) ->
  color p = black ->
  isOccupiedBy b to white = true ->
  whitePieces (snd (movePiece from to b)) = whitePieces b /\
  getPieceAt (snd (movePiece from to b)) to = getPieceAt b to.
Proof.
  intros Hp Hc Hw.
  assert (W : whitePieces (snd (movePiece from to b)) = whitePieces b).
  { rewrite (movePiece_steps _ _ _ _ Hp), Hc.
    assert (E : enPassantStep b from to p b = (Ret tt, b)).
    { unfold enPassantStep. cbv zeta.
      destruct (_ && _); [ | reflexivity ].
      unfold sbind, lift. rewrite (isEmpty_white _ _ Hw). reflexivity. }
    unfold sbind at 1. rewrite E.
    match goal with
    | |- whitePieces (snd (?m b)) = _ =>
        assert (Q : preserves whitePieces m); [ | apply Q ]
    end.
    apply preserves_sbind; [ | intros _ ].
    { unfold relocate. repeat preserves_step. }
    apply preserves_sbind; [ | intros _; apply preserves_sret ].
    unfold flagStep. cbv zeta. repeat preserves_step. }
  split; [ exact W | ].
  apply (getPieceAt_white _ _ _ W Hw).
Qed.

(** ** Promotion *)


(** ** Instances *)

Ltac valid_tac :=
  eexists; eexists; (split; [ | split; [ | reflexivity ] ]); simpl; tauto.

Lemma coordinates_roundtrip_witness :
  in_bounds (mkCoord (Int 3) (Int 4)) = true /\
  positionToCoordinates (coordinatesToPosition (mkCoord (Int 3) (Int 4)))
  = mkCoord (Int 3) (Int 4) /\
  valid_position (coordinatesToPosition (mkCoord (Int 3) (Int 4))).
Proof.
  split; [ reflexivity | ].
  apply (coordinates_roundtrip (mkCoord (Int 3) (Int 4))). reflexivity.
Defined.

Lemma index_injective_witness :
  valid_position "e4" /\ valid_position "d5" /\
  (coordinatesToIndex (positionToCoordinates "e4")
   = coordinatesToIndex (positionToCoordinates "d5") -> "e4" = "d5").
Proof.
  assert (V1 : valid_position "e4") by valid_tac.
  assert (V2 : valid_position "d5") by valid_tac.
  split; [ exact V1 | ]. split; [ exact V2 | ].
  apply (index_injective "e4" "d5" V1 V2).
Defined.

Lemma capturePiece_effect_witness :
  valid_position "e2" /\
  exists b',
    capturePiece "e2" initialBoard = (Ret true, b') /\
    isOccupiedBy b' "e2" white = false.
Proof.
  assert (V : valid_position "e2") by valid_tac.
  split; [ exact V | ].
  destruct (capturePiece_effect initialBoard "e2" V) as (b' & H1 & H2 & _).
  exists b'. split; [ exact H1 | exact H2 ].
Defined.

Lemma movePiece_relocates_witness :
  valid_position "e2" /\ valid_position "e4" /\ "e2" <> "e4" /\
  movePiece "e2" "e4" initialBoard = (Ret true, board game_e4) /\
  isOccupiedBy (board game_e4) "e4" white = true /\
  isOccupiedBy (board game_e4) "e2" white = false.
Proof.
  assert (V1 : valid_position "e2") by valid_tac.
  assert (V2 : valid_position "e4") by valid_tac.
  assert (N : "e2" <> "e4") by discriminate.
  assert (P : getPieceAt initialBoard "e2"
              = Ret (Some (mkPiece white PieceType.Pawn "e2" (Some "P"))))
    by reflexivity.
  assert (M : movePiece "e2" "e4" initialBoard = (Ret true, board game_e4))
    by (vm_compute; reflexivity).
  split; [ exact V1 | ]. split; [ exact V2 | ]. split; [ exact N | ].
  split; [ exact M | ].
  destruct (movePiece_relocates _ _ _ _ _ _ V1 V2 N P M) as (_ & H1 & H2 & _).
  split; [ exact H1 | exact H2 ].
Defined.

Lemma movePiece_piece_arrives_witness :
  clean initialBoard /\
  movePiece "g1" "f3" initialBoard
  = (Ret true, snd (movePiece "g1" "f3" initialBoard)) /\
  getPieceAt (snd (movePiece "g1" "f3" initialBoard)) "f3"
  = Ret (Some (mkPiece white PieceType.Knight "f3" (Some "N"))).
Proof.
  assert (V1 : valid_position "g1") by valid_tac.
  assert (V2 : valid_position "f3") by valid_tac.
  assert (N : "g1" <> "f3") by discriminate.
  assert (P : getPieceAt initialBoard "g1"
              = Ret (Some (mkPiece white PieceType.Knight "g1" (Some "N"))))
    by reflexivity.
  assert (M : movePiece "g1" "f3" initialBoard
              = (Ret true, snd (movePiece "g1" "f3" initialBoard)))
    by (vm_compute; reflexivity).
  split; [ exact clean_initialBoard | ]. split; [ exact M | ].
  refine (movePiece_piece_arrives _ _ _ _ _ _ V1 V2 N clean_initialBoard P
            eq_refl _ M).
  intros E. discriminate E.
Defined.

Lemma board_stays_clean_witness :
  valid_position "e2" /\ valid_position "e4" /\ clean initialBoard /\
  clean (snd (movePiece "e2" "e4" initialBoard)) /\
  clean (snd (capturePiece "e4" initialBoard)).
Proof.
  assert (V1 : valid_position "e2") by valid_tac.
  assert (V2 : valid_position "e4") by valid_tac.
  assert (P : getPieceAt initialBoard "e2"
              = Ret (Some (mkPiece white PieceType.Pawn "e2" (Some "P"))))
    by reflexivity.
  split; [ exact V1 | ]. split; [ exact V2 | ].
  split; [ exact clean_initialBoard | ].
  apply (board_stays_clean _ _ _ _ V1 V2 P clean_initialBoard).
Defined.

Lemma black_capture_leaves_white_piece_witness :
  getPieceAt (board game_exd5) "d8"
  = Ret (Some (mkPiece black PieceType.Queen "d8" (Some "q"))) /\
  isOccupiedBy (board game_exd5) "d5" white = true /\
  getPieceAt (snd (movePiece "d8" "d5" (board game_exd5))) "d5"
  = Ret (Some (mkPiece white PieceType.Pawn "d5" (Some "P"))).
Proof.
  assert (P : getPieceAt (board game_exd5) "d8"
              = Ret (Some (mkPiece black PieceType.Queen "d8" (Some "q"))))
    by reflexivity.
  assert (O : isOccupiedBy (board game_exd5) "d5" white = true)
    by reflexivity.
  split; [ exact P | ]. split; [ exact O | ].
  rewrite (proj2 (black_capture_leaves_white_piece _ "d8" "d5" _ P eq_refl O)).
  reflexivity.
Defined.


(** ** Where the recursion comes from *)

Lemma lands_Ret {A : Type} (a : A) : lands (Ret a).
Proof. discriminate. Qed.

Lemma lands_Throw {A : Type} (e : Exn) : lands (@Throw A e).
Proof. discriminate. Qed.

Lemma lands_bind {A B : Type} (m : res A) (k : A -> res B) :
  lands m -> (forall a, lands (k a)) -> lands (bind m k).
Proof.
  intros Hm Hk. destruct m as [a | e | ]; cbn [bind].
  - apply Hk.
  - discriminate.
  - exfalso. apply Hm. reflexivity.
Qed.

Ltac lands_step :=
  match goal with
  | |- lands (bind _ _) => apply lands_bind; [ | intros ]
  | |- lands (Ret _) => apply lands_Ret
  | |- lands (Throw _) => apply lands_Throw
  | |- lands (if ?c then _ else _) => destruct c
  | |- lands (match ?x with _ => _ end) => destruct x
  | |- lands (let _ := _ in _) => cbv zeta
  end.

Ltac lands_tac := repeat lands_step; auto.

Lemma lands_getPieceAt (b : ChessBoard) (pos : string) :
  lands (getPieceAt b pos).
Proof. unfold getPieceAt, getPieceSymbol. lands_tac. Qed.

Lemma lands_isEmpty (b : ChessBoard) (pos : string) : lands (isEmpty b pos).
Proof. unfold isEmpty. lands_tac. apply lands_getPieceAt. Qed.

Lemma lands_isEnemy (b : ChessBoard) (pos : string) (c : Color) :
  lands (isEnemy b pos c).
Proof. unfold isEnemy. lands_tac. apply lands_getPieceAt. Qed.

#[local] Hint Resolve lands_getPieceAt lands_isEmpty lands_isEnemy : core.

Lemma lands_getPawnMoves (b : ChessBoard) (pos : string) (c : Color) :
  lands (getPawnMoves b pos c).
Proof. unfold getPawnMoves. cbv zeta. lands_tac. Qed.

Lemma lands_slide (n : nat) (b : ChessBoard) (c : Color)
    (cond : num -> bool) (at_ : num -> Coord) (step : num) :
  forall i moves, lands (slide n b c cond at_ step i moves).
Proof. induction n as [ | n IH]; intros i moves; simpl; lands_tac. Qed.

#[local] Hint Resolve lands_slide : core.

Lemma lands_getRookMoves (b : ChessBoard) (pos : string) (c : Color) :
  lands (getRookMoves b pos c).
Proof. unfold getRookMoves, getRookMoves_from. cbv zeta. lands_tac. Qed.

Lemma lands_getBishopMoves (b : ChessBoard) (pos : string) (c : Color) :
  lands (getBishopMoves b pos c).
Proof. unfold getBishopMoves. cbv zeta. lands_tac. Qed.

#[local] Hint Resolve lands_getRookMoves lands_getBishopMoves : core.

Lemma lands_getQueenMoves (b : ChessBoard) (pos : string) (c : Color) :
  lands (getQueenMoves b pos c).
Proof. unfold getQueenMoves. lands_tac. Qed.

Lemma lands_knight_loop (b : ChessBoard) (c : Color) (cands : list Coord) :
  forall moves, lands (knight_loop b c cands moves).
Proof.
  induction cands as [ | move rest IH]; intros moves; simpl; lands_tac.
Qed.

(** X22: the legal moves of a piece that is not a king come back at
    every recursion depth, also at depth 0: only the generator of the
    king asks whether squares are attacked. *)
Theorem legal_moves_of_other_pieces_land (fuel : nat) (b : ChessBoard)
    (pos : string) (p : Piece) :
  getPieceAt b pos = Ret (Some p) ->
  is_king p = false ->
  getLegalMoves fuel b pos <> OutOfFuel.
Proof.
  intros Hp Hk. unfold getLegalMoves, getLegalMoves_with.
  destruct (negb _ && negb _); [ discriminate | ].
  rewrite Hp. cbn [bind]. unfold is_king in Hk. rewrite Hk.
  fold (lands (A := list string)).
  repeat match goal with
         | |- context [if ?c then _ else _] => destruct c
         end;
    first [ apply lands_getPawnMoves | apply lands_getRookMoves
          | apply lands_getBishopMoves | apply lands_getQueenMoves
          | apply lands_knight_loop | apply lands_Ret ].
Qed.

Lemma legal_moves_of_other_pieces_land_witness :
  getPieceAt (board game_e4_e5) "d1"
  = Ret (Some (mkPiece white PieceType.Queen "d1" (Some "Q"))) /\
  getLegalMoves 0 (board game_e4_e5) "d1" <> OutOfFuel.
Proof.
  assert (P : getPieceAt (board game_e4_e5) "d1"
              = Ret (Some (mkPiece white PieceType.Queen "d1" (Some "Q"))))
    by reflexivity.
  split; [ exact P | ].
  apply (legal_moves_of_other_pieces_land 0 _ _ _ P). reflexivity.
Defined.

(** ** The tests on a move *)

(** X23: [isEnPassant] is true only for a pawn moving two rows onto an
    empty square, the double advance, and then [isCapture] is false: it
    is never true for the one-row diagonal step of an en passant
    capture. *)
Theorem isEnPassant_is_double_step (b : ChessBoard) (from to : string) :
  isEnPassant b from to = Ret true ->
  (exists p, getPieceAt b from = Ret (Some p) /\ type p = PieceType.Pawn) /\
  isEmpty b to = Ret true /\
  isCapture b from to = Ret false /\
  exists r1 r2,
    row (positionToCoordinates from) = Int r1 /\
    row (positionToCoordinates to) = Int r2 /\
    Z.abs (r1 - r2) = 2.
Proof.
  unfold isEnPassant, isCapture, isEmpty. cbv zeta.
  generalize (row (positionToCoordinates from))
    (row (positionToCoordinates to)).
  intros rf rt.
  destruct (getPieceAt b from) as [[p | ] | e | ]; cbn [bind];
    try discriminate.
  - destruct (getPieceAt b to) as [[q | ] | e | ]; cbn [bind];
      try discriminate.
    + destruct (type p =? PieceType.Pawn); discriminate.
    + destruct (Z.eqb_spec (type p) PieceType.Pawn) as [Ht | Ht];
        cbn [negb orb]; [ | discriminate ].
      intros H. apply Ret_inj in H.
      split; [ exists p; split; [ reflexivity | exact Ht ] | ].
      split; [ reflexivity | ]. split; [ reflexivity | ].
      destruct rf as [r1 | ]; destruct rt as [r2 | ];
        cbn [nsub nabs nseq] in H; try discriminate.
      exists r1, r2. apply Z.eqb_eq in H. auto.
  - destruct (getPieceAt b to) as [[q | ] | e | ]; cbn [bind]; discriminate.
Qed.

Lemma isEnPassant_is_double_step_witness :
  isEnPassant initialBoard "e2" "e4" = Ret true /\
  isCapture initialBoard "e2" "e4" = Ret false.
Proof.
  assert (H : isEnPassant initialBoard "e2" "e4" = Ret true) by reflexivity.
  split; [ exact H | ].
  destruct (isEnPassant_is_double_step initialBoard "e2" "e4" H)
    as (_ & _ & C & _).
  exact C.
Defined.
